(** * Tweet scraper (src/App.tsx): the scroll-and-collect loop, the per-tweet
    comment fetch, the driver [scrapeTweets] and the JSON export.

    App.tsx holds two revisions of the component, one after the other; this
    development follows the second one, which has the scroll loop, the
    target count and the export.

    The page and the browser are the environment.  The injected collector
    sees the page as a sequence of snapshots, one per timer tick; the driver
    sees the [chrome] API as answers that may depend on everything that was
    done so far.  Both are arbitrary in every statement below. *)

From Stdlib Require Import Ascii String.
From stdpp Require Import gmap strings pretty list.

Local Open Scope string_scope.
Local Open Scope list_scope.
Local Open Scope Z_scope.

(** ** Data model (interfaces [Comment], [Tweet], [ScrapedData]) *)

Record Comment := mkComment {
  c_text : string;
  c_userName : string;
  c_timestamp : string;
  c_likes : string;
  c_replies : string
}.

Record Tweet := mkTweet {
  tweet : string;
  userName : string;
  timestamp : string;
  likes : string;
  retweets : string;
  comments : list Comment;
  tweetUrl : string
}.

Record ScrapedData := mkScrapedData { tweets : list Tweet }.

(** ** The page as the injected code reads it *)

(** An element: its text and its attributes. *)
Record Element := mkElement {
  textContent : string;
  attributes : gmap string string
}.

Definition getAttribute (el : Element) (name : string) : option string :=
  attributes el !! name.

(** A [[data-testid="cellInnerDiv"]] node, given by what [querySelector]
    answers on it for the six selectors the collector uses. *)
Record Cell := mkCell {
  q_statusLink : option Element;   (* a[href*="/status/"]        *)
  q_tweetText : option Element;    (* [data-testid="tweetText"]  *)
  q_userName : option Element;     (* [data-testid="User-Name"]  *)
  q_time : option Element;         (* time                       *)
  q_like : option Element;         (* [data-testid="like"]       *)
  q_retweet : option Element       (* [data-testid="retweet"]    *)
}.

(** What one timer tick observes: the nodes [querySelectorAll] returns and
    [document.body.scrollHeight] read after [window.scrollTo]. *)
Record Snapshot := mkSnapshot {
  cells : list Cell;
  scrollHeight : Z
}.

(** The page over time, indexed by the number of ticks already run. *)
Definition Page := nat → Snapshot.

(** ** JavaScript expressions used by the extraction *)

(** [s || d] on strings: the empty string is falsy. *)
Definition or_else (s d : string) : string :=
  if decide (s = "") then d else s.

(** [o || d] where [o] may be [null]. *)
Definition opt_or_else (o : option string) (d : string) : string :=
  match o with
  | Some s => or_else s d
  | None => d
  end.

(** [s.split(' ')[0]]: the text before the first space. *)
Fixpoint split_space_0 (s : string) : string :=
  match s with
  | EmptyString => EmptyString
  | String c r => if Ascii.eqb c " "%char then EmptyString else String c (split_space_0 r)
  end.

(** [el ? el.textContent || '' : ''] *)
Definition text_of (el : option Element) : string :=
  match el with
  | Some e => or_else (textContent e) ""
  | None => ""
  end.

(** [el ? el.getAttribute(a) || '' : ''] *)
Definition attr_of (el : option Element) (a : string) : string :=
  match el with
  | Some e => opt_or_else (getAttribute e a) ""
  | None => ""
  end.

(** [el ? el.getAttribute('aria-label')?.split(' ')[0] || '0' : '0'] *)
Definition count_of (el : option Element) : string :=
  match el with
  | Some e => opt_or_else (split_space_0 <$> getAttribute e "aria-label") "0"
  | None => "0"
  end.

(** [tweetLink ? tweetLink.getAttribute('href') : null] *)
Definition cell_url (tweetEl : Cell) : option string :=
  q_statusLink tweetEl ≫= λ tweetLink, getAttribute tweetLink "href".

(** The object literal built for an accepted node. *)
Definition tweet_of_cell (tweetEl : Cell) (url : string) : Tweet :=
  {| tweet := text_of (q_tweetText tweetEl);
     userName := text_of (q_userName tweetEl);
     timestamp := attr_of (q_time tweetEl) "datetime";
     likes := count_of (q_like tweetEl);
     retweets := count_of (q_retweet tweetEl);
     tweetUrl := url;
     comments := [] |}.

(** ** [scrollAndCollect] *)

(** The variables captured by the interval callback. *)
Record ScrollState := mkScrollState {
  previousHeight : Z;
  scrollAttempts : nat;
  processedTweetUrls : gset string;
  collected : list Tweet
}.

Definition maxScrollAttempts : nat := 50.

Definition scroll_init : ScrollState :=
  {| previousHeight := 0;
     scrollAttempts := 0;
     processedTweetUrls := ∅;
     collected := [] |}.

(** Body of [tweetElements.forEach]: the set and the array it updates are
    threaded through. *)
Definition forEach_body (acc : gset string * list Tweet) (tweetEl : Cell)
  : gset string * list Tweet :=
  match cell_url tweetEl with
  | None => acc
  | Some url =>
      if decide (url = "") then acc
      else if decide (url ∈ acc.1) then acc
      else ({[url]} ∪ acc.1, acc.2 ++ [tweet_of_cell tweetEl url])
  end.

Definition forEach_cells (tweetElements : list Cell) (acc : gset string * list Tweet)
  : gset string * list Tweet :=
  fold_left forEach_body tweetElements acc.

(** The stop test at the end of the callback. *)
Definition stop_test (currentHeight previousHeight : Z) (len : nat)
    (targetTweetCount : Z) (scrollAttempts : nat) : bool :=
  (currentHeight =? previousHeight)
  || (targetTweetCount <=? Z.of_nat len)
  || (maxScrollAttempts <=? scrollAttempts)%nat.

(** One run of the interval callback.  The boolean tells whether it cleared
    the interval and resolved the promise with [collected]; when it did,
    [previousHeight] is left as it was. *)
Definition interval_callback (targetTweetCount : Z) (snap : Snapshot)
    (st : ScrollState) : ScrollState * bool :=
  let '(seen, tws) := forEach_cells (cells snap) (processedTweetUrls st, collected st) in
  let currentHeight := scrollHeight snap in
  let attempts := S (scrollAttempts st) in
  if stop_test currentHeight (previousHeight st) (length tws) targetTweetCount attempts
  then ({| previousHeight := previousHeight st; scrollAttempts := attempts;
           processedTweetUrls := seen; collected := tws |}, true)
  else ({| previousHeight := currentHeight; scrollAttempts := attempts;
           processedTweetUrls := seen; collected := tws |}, false).

(** The timer: the callback fires until it resolves.  [fuel] bounds the
    number of firings watched; [None] means the promise is still pending
    after that many. *)
Fixpoint run_interval (fuel : nat) (targetTweetCount : Z) (page : Page)
    (st : ScrollState) : option ScrollState :=
  match fuel with
  | O => None
  | S fuel' =>
      let '(st', resolved) :=
        interval_callback targetTweetCount (page (scrollAttempts st)) st in
      if resolved then Some st' else run_interval fuel' targetTweetCount page st'
  end.

(** [scrollAndCollect()]: the value the promise resolves with, together
    with the final state of the captured variables. *)
Definition scrollAndCollect_state (fuel : nat) (targetTweetCount : Z) (page : Page)
  : option ScrollState :=
  run_interval fuel targetTweetCount page scroll_init.

Definition scrollAndCollect (fuel : nat) (targetTweetCount : Z) (page : Page)
  : option (list Tweet) :=
  collected <$> scrollAndCollect_state fuel targetTweetCount page.

(** ** The browser as [scrapeTweets] and [scrapeComments] see it *)

(** A [chrome.tabs.Tab]: only [id] and [url] are read, both optional. *)
Record Tab := mkTab {
  tab_id : option Z;
  tab_url : option string
}.

(** One entry of the array [chrome.scripting.executeScript] resolves with;
    its [result] may be missing. *)
Record InjectionResult (A : Type) := mkInjectionResult {
  result : option A
}.
Arguments mkInjectionResult {A} _.
Arguments result {A} _.

(** What can be thrown inside the two [try] blocks. *)
Inductive Exn :=
| NoActiveTabFound              (* new Error('No active tab found') *)
| NoTweetsFound                 (* new Error('No tweets found on this page') *)
| TypeError (property : string) (* a property read on undefined *)
| Rejected (msg : string).      (* a chrome.* promise rejected *)

Definition message (e : Exn) : string :=
  match e with
  | NoActiveTabFound => "No active tab found"
  | NoTweetsFound => "No tweets found on this page"
  | TypeError p => "Cannot read properties of undefined (reading '" +:+ p +:+ "')"
  | Rejected m => m
  end.

Inductive ConsoleLine :=
| LogScrapingComments (tweetUrl : string)   (* `Scraping comments for tweet: ${tweetUrl}` *)
| ErrScrapingComments (e : Exn)             (* 'Error scraping comments:', error *)
| LogCurrentTab (tab : option Tab)          (* 'Current tab:', tab *)
| LogInitialResult (r : option (InjectionResult (list Tweet)))
                                            (* 'Initial scrape result:', result *)
| LogFinal (tws : list Tweet)               (* 'Final scraped data:', { tweets } *)
| ErrScraping (e : Exn).                    (* 'Scraping error:', err *)

(** Everything the extension does that the outside can observe, in order. *)
Inductive Event :=
| TabsQuery                                  (* chrome.tabs.query({active, currentWindow}) *)
| TabsUpdate (tabId : Z) (url : string)      (* chrome.tabs.update(tabId, {url}) *)
| SetTimeout (ms : Z)                        (* await new Promise(r => setTimeout(r, ms)) *)
| ExecSetCount (tabId : Z) (count : Z)       (* executeScript: window._targetTweetCount = count *)
| ExecCollect (tabId : Z)                    (* executeScript: collectTweets *)
| ExecComments (tabId : Z)                   (* executeScript: the comment extractor *)
| Console (line : ConsoleLine).

(** The browser answers each call from the whole history, which ends with
    the call itself; [inl m] is a rejected promise with message [m]. *)
Record Chrome := mkChrome {
  answer_query : list Event → string + list Tab;
  answer_update : list Event → string + unit;
  answer_setCount : list Event → string + unit;
  answer_collect : list Event → string + list (InjectionResult (list Tweet));
  answer_comments : list Event → string + list (InjectionResult (list Comment))
}.

(** The component's React state. *)
Record AppState := mkAppState {
  scrapedData : option ScrapedData;
  isLoading : bool;
  error : option string;
  progress : string;
  tweetCount : Z;
  copyStatus : string;
  searchTerm : string
}.

Record World := mkWorld {
  ui : AppState;
  trace : list Event
}.

(** ** A state and exception monad for the async functions *)

Definition M (A : Type) : Type := World → (Exn + A) * World.

Definition ret {A} (a : A) : M A := λ w, (inr a, w).

Definition throw {A} (e : Exn) : M A := λ w, (inl e, w).

Definition bind {A B} (m : M A) (k : A → M B) : M B :=
  λ w, match m w with
       | (inr a, w') => k a w'
       | (inl e, w') => (inl e, w')
       end.

(** [try { body } catch (e) { handler }] *)
Definition try_catch {A} (body : M A) (handler : Exn → M A) : M A :=
  λ w, match body w with
       | (inr a, w') => (inr a, w')
       | (inl e, w') => handler e w'
       end.

(** [try { body } catch (e) { handler } finally { fin }], for a [fin] that
    does not throw. *)
Definition try_catch_finally (body : M unit) (handler : Exn → M unit)
    (fin : M unit) : M unit :=
  bind (try_catch body handler) (λ _, fin).

#[global] Instance M_ret : MRet M := @ret.
#[global] Instance M_bind : MBind M := λ A B k m, bind m k.

Definition emit (e : Event) : M unit :=
  λ w, (inr tt, {| ui := ui w; trace := trace w ++ [e] |}).

Definition console (l : ConsoleLine) : M unit := emit (Console l).

(** A call: record it, then take the browser's answer to the history. *)
Definition call {A} (e : Event) (answer : list Event → string + A) : M A :=
  λ w, let w' := {| ui := ui w; trace := trace w ++ [e] |} in
       match answer (trace w') with
       | inl m => (inl (Rejected m), w')
       | inr a => (inr a, w')
       end.

Definition modify_ui (f : AppState → AppState) : M unit :=
  λ w, (inr tt, {| ui := f (ui w); trace := trace w |}).

Definition setScrapedData (d : ScrapedData) : M unit :=
  modify_ui (λ s, {| scrapedData := Some d; isLoading := isLoading s; error := error s;
                     progress := progress s; tweetCount := tweetCount s;
                     copyStatus := copyStatus s; searchTerm := searchTerm s |}).

Definition setIsLoading (b : bool) : M unit :=
  modify_ui (λ s, {| scrapedData := scrapedData s; isLoading := b; error := error s;
                     progress := progress s; tweetCount := tweetCount s;
                     copyStatus := copyStatus s; searchTerm := searchTerm s |}).

Definition setError (e : option string) : M unit :=
  modify_ui (λ s, {| scrapedData := scrapedData s; isLoading := isLoading s; error := e;
                     progress := progress s; tweetCount := tweetCount s;
                     copyStatus := copyStatus s; searchTerm := searchTerm s |}).

Definition setProgress (p : string) : M unit :=
  modify_ui (λ s, {| scrapedData := scrapedData s; isLoading := isLoading s; error := error s;
                     progress := p; tweetCount := tweetCount s;
                     copyStatus := copyStatus s; searchTerm := searchTerm s |}).

(** [tab.id] followed by [if (!tab.id) throw new Error('No active tab found')]:
    reading [id] on [undefined] is a TypeError; a missing id and the id 0 are
    falsy. *)
Definition checked_tab_id (tab : option Tab) : M Z :=
  match tab with
  | None => throw (TypeError "id")
  | Some t =>
      match tab_id t with
      | None => throw NoActiveTabFound
      | Some id => if decide (id = 0) then throw NoActiveTabFound else ret id
      end
  end.

Section Driver.

Variable chrome : Chrome.

(** ** [scrapeComments] *)

(** The [try] block. *)
Definition scrapeComments_try (tweetUrl : string) : M (list Comment) :=
  console (LogScrapingComments tweetUrl) ;;
  tabs ← call TabsQuery (answer_query chrome) ;
  let tab := head tabs in
  id ← checked_tab_id tab ;
  call (TabsUpdate id ("https://twitter.com" +:+ tweetUrl)) (answer_update chrome) ;;
  emit (SetTimeout 3000) ;;
  results ← call (ExecComments id) (answer_comments chrome) ;
  match head results with
  | None => throw (TypeError "result")
  | Some r => ret (default [] (result r))
  end.

Definition scrapeComments (tweetUrl : string) : M (list Comment) :=
  try_catch (scrapeComments_try tweetUrl)
            (λ error, console (ErrScrapingComments error) ;; ret []).

(** ** [scrapeTweets] *)

Definition set_comments (t : Tweet) (cs : list Comment) : Tweet :=
  {| tweet := tweet t; userName := userName t; timestamp := timestamp t;
     likes := likes t; retweets := retweets t; comments := cs;
     tweetUrl := tweetUrl t |}.

Definition progress_line (i n : nat) : string :=
  "Scraping comments for tweet " +:+ pretty (i + 1)%nat +:+ " of " +:+ pretty n +:+ "...".

(** Body of the [for] loop at index [i]; the array is updated in place. *)
Definition loop_body (i : nat) (tws : list Tweet) : M (list Tweet) :=
  setProgress (progress_line i (length tws)) ;;
  match tws !! i with
  | None => throw (TypeError "tweetUrl")
  | Some t =>
      if decide (tweetUrl t = "") then ret tws
      else
        cs ← scrapeComments (tweetUrl t) ;
        ret (<[i := set_comments t cs]> tws)
  end.

Fixpoint for_indices (idxs : list nat) (tws : list Tweet) : M (list Tweet) :=
  match idxs with
  | [] => ret tws
  | i :: rest => tws' ← loop_body i tws ; for_indices rest tws'
  end.

(** [for (let i = 0; i < tweets.length; i++) { ... }]: the body never
    changes the length, so the indices are [0 .. tweets.length - 1]. *)
Definition comments_loop (tws : list Tweet) : M (list Tweet) :=
  for_indices (seq 0 (length tws)) tws.

(** [if (originalUrl) await chrome.tabs.update(tab.id, { url: originalUrl })] *)
Definition restore (id : Z) (originalUrl : option string) : M unit :=
  match originalUrl with
  | None => ret tt
  | Some u =>
      if decide (u = "") then ret tt
      else call (TabsUpdate id u) (answer_update chrome)
  end.

(** From the first query to the test on the collector's result: the tab id,
    [tab.url] and the array the loop will work on. *)
Definition find_tweets (count : Z) : M (Z * option string * list Tweet) :=
  tabs ← call TabsQuery (answer_query chrome) ;
  let tab := head tabs in
  console (LogCurrentTab tab) ;;
  id ← checked_tab_id tab ;
  setProgress "Finding tweets..." ;;
  call (ExecSetCount id count) (answer_setCount chrome) ;;
  results ← call (ExecCollect id) (answer_collect chrome) ;
  let r := head results in
  console (LogInitialResult r) ;;
  match r ≫= result with
  | None | Some [] => throw NoTweetsFound
  | Some tws => ret (id, tab ≫= tab_url, tws)
  end.

(** The [try] block of [scrapeTweets]. *)
Definition scrapeTweets_try (count : Z) : M unit :=
  '(id, originalUrl, tws) ← find_tweets count ;
  tws' ← comments_loop tws ;
  restore id originalUrl ;;
  setScrapedData {| tweets := tws' |} ;;
  console (LogFinal tws') ;;
  setProgress "Scraping completed successfully!".

Definition scrapeTweets : M unit :=
  λ w,
    (setIsLoading true ;;
     setError None ;;
     setProgress "Starting tweet scraping..." ;;
     try_catch_finally
       (scrapeTweets_try (tweetCount (ui w)))
       (λ err, console (ErrScraping err) ;;
               setError (Some ("Error scraping tweets: " +:+ message err)))
       (setIsLoading false)) w.

End Driver.

(** ** [copyJsonToClipboard] *)

(** The values [JSON.stringify] is given; object members keep their order. *)
#[warnings="-register-all"]
Inductive JSON :=
| JStr (s : string)
| JNum (n : Z)
| JArr (items : list JSON)
| JObj (members : list (string * JSON)).

Definition comment_json (comment : Comment) : JSON :=
  JObj [("content", JStr (c_text comment));
        ("metadata", JObj [("author", JStr (c_userName comment));
                           ("postedAt", JStr (c_timestamp comment));
                           ("engagement", JObj [("likes", JStr (c_likes comment));
                                                ("replies", JStr (c_replies comment))])])].

Definition tweet_json (t : Tweet) : JSON :=
  JObj [("content", JStr (tweet t));
        ("metadata", JObj [("author", JStr (userName t));
                           ("postedAt", JStr (timestamp t));
                           ("engagement", JObj [("likes", JStr (likes t));
                                                ("retweets", JStr (retweets t));
                                                ("commentCount", JNum (Z.of_nat (length (comments t))))]);
                           ("url", JStr (tweetUrl t))]);
        ("comments", JArr (comment_json <$> comments t))].

(** [formattedData]; [now] is [new Date().toISOString()]. *)
Definition formattedData (now : string) (term : string) (d : ScrapedData) : JSON :=
  JObj [("totalTweets", JNum (Z.of_nat (length (tweets d))));
        ("searchItem", JStr term);
        ("scrapeTimestamp", JStr now);
        ("tweets", JArr (tweet_json <$> tweets d))].

(** The record whose pretty-printed text goes to the clipboard; nothing
    when there is no scraped data. *)
Definition copyJsonToClipboard (now : string) (s : AppState) : option JSON :=
  formattedData now (searchTerm s) <$> scrapedData s.

(** ** Reference definitions the properties are stated against *)

(** What the [if (!tweetUrl ...)] test lets through of a node's URL. *)
Definition accepted_url (tweetEl : Cell) : option string :=
  match cell_url tweetEl with
  | Some u => if decide (u = "") then None else Some u
  | None => None
  end.

(** The nodes scanned by the first [k] ticks, in scan order. *)
Definition scanned (page : Page) (k : nat) : list Cell :=
  concat ((λ t, cells (page t)) <$> seq 0 k).

(** A list with every repetition after the first occurrence dropped. *)
Fixpoint first_seen (l : list string) : list string :=
  match l with
  | [] => []
  | x :: l' => x :: filter (λ y, y ≠ x) (first_seen l')
  end.

(** The captured variables after [j] firings of the callback, whether or
    not one of them resolved. *)
Fixpoint state_after (targetTweetCount : Z) (page : Page) (j : nat) : ScrollState :=
  match j with
  | O => scroll_init
  | S j' =>
      (interval_callback targetTweetCount (page j') (state_after targetTweetCount page j')).1
  end.

(** The nested record of the specification, following its words:
    "{ totalItems, items: [{ content, metadata: {author, postedAt,
    engagement: {likes, shares, replyCount}, url}, replies: [{content,
    metadata: {author, postedAt, engagement: {likes, replyCount}}}] }] }".
    The six names the specification abstracts are parameters. *)
Record RecordKeys := mkRecordKeys {
  k_totalItems : string;
  k_items : string;
  k_shares : string;
  k_replyCount : string;
  k_replies : string;
  k_reply_replyCount : string
}.

Definition spec_keys : RecordKeys :=
  {| k_totalItems := "totalItems"; k_items := "items"; k_shares := "shares";
     k_replyCount := "replyCount"; k_replies := "replies";
     k_reply_replyCount := "replyCount" |}.

Definition source_keys : RecordKeys :=
  {| k_totalItems := "totalTweets"; k_items := "tweets"; k_shares := "retweets";
     k_replyCount := "commentCount"; k_replies := "comments";
     k_reply_replyCount := "replies" |}.

Definition reply_record (K : RecordKeys) (c : Comment) : JSON :=
  JObj [("content", JStr (c_text c));
        ("metadata", JObj [("author", JStr (c_userName c));
                           ("postedAt", JStr (c_timestamp c));
                           ("engagement", JObj [("likes", JStr (c_likes c));
                                                (k_reply_replyCount K, JStr (c_replies c))])])].

Definition item_record (K : RecordKeys) (t : Tweet) : JSON :=
  JObj [("content", JStr (tweet t));
        ("metadata", JObj [("author", JStr (userName t));
                           ("postedAt", JStr (timestamp t));
                           ("engagement", JObj [("likes", JStr (likes t));
                                                (k_shares K, JStr (retweets t));
                                                (k_replyCount K, JNum (Z.of_nat (length (comments t))))]);
                           ("url", JStr (tweetUrl t))]);
        (k_replies K, JArr (reply_record K <$> comments t))].

Definition harvest_record (K : RecordKeys) (d : ScrapedData) : JSON :=
  JObj [(k_totalItems K, JNum (Z.of_nat (length (tweets d))));
        (k_items K, JArr (item_record K <$> tweets d))].

(** ** Reading the trace *)

(** The navigations asked of the browser, in order. *)
Definition navigations (tr : list Event) : list (Z * string) :=
  omap (λ e, match e with TabsUpdate id u => Some (id, u) | _ => None end) tr.

(** The URLs [scrapeComments] was called with, in order: it logs its
    argument on entry. *)
Definition fetched_urls (tr : list Event) : list string :=
  omap (λ e, match e with Console (LogScrapingComments u) => Some u | _ => None end) tr.

(** [t'] is [t] with, at most, other comments. *)
Definition same_but_comments (t t' : Tweet) : Prop :=
  t' = set_comments t (comments t').

(** The array and the world after the first [k] iterations of the loop. *)
Definition loop_prefix (chrome : Chrome) (tws : list Tweet) (w : World) (k : nat)
  : (Exn + list Tweet) * World :=
  for_indices chrome (seq 0 k) tws w.

(** The world in which iteration [k] calls [scrapeComments]. *)
Definition fetch_world (chrome : Chrome) (tws : list Tweet) (w : World) (k : nat) : World :=
  (setProgress (progress_line k (length tws)) (loop_prefix chrome tws w k).2).2.

(** The histories the two injections of [scrapeTweets] are answered from,
    for a run started in world [w0] whose first query found tab [t] with
    id [id]. *)
Definition trace_at_setCount (w0 : World) (t : Tab) (id count : Z) : list Event :=
  trace w0 ++ [TabsQuery; Console (LogCurrentTab (Some t)); ExecSetCount id count].

Definition trace_at_collect (w0 : World) (t : Tab) (id count : Z) : list Event :=
  trace_at_setCount w0 t id count ++ [ExecCollect id].

(** The first query found tab [t], whose id [id] is truthy, and both
    injections were answered, the collector's with [results]. *)
Definition collect_answered (chrome : Chrome) (count : Z) (w0 : World)
    (t : Tab) (id : Z) (results : list (InjectionResult (list Tweet))) : Prop :=
  (∃ rest, answer_query chrome (trace w0 ++ [TabsQuery]) = inr (t :: rest))
  ∧ tab_id t = Some id ∧ id ≠ 0
  ∧ answer_setCount chrome (trace_at_setCount w0 t id count) = inr tt
  ∧ answer_collect chrome (trace_at_collect w0 t id count) = inr results.

(** The world in which the loop starts after such a beginning. *)
Definition world_at_loop (w0 : World) (t : Tab) (id count : Z)
    (results : list (InjectionResult (list Tweet))) : World :=
  {| ui := ui (setProgress "Finding tweets..." w0).2;
     trace := trace_at_collect w0 t id count ++ [Console (LogInitialResult (head results))] |}.

(** The world in which the [try] block of [scrapeTweets] starts. *)
Definition started (w : World) : World :=
  (setProgress "Starting tweet scraping..." (setError None (setIsLoading true w).2).2).2.

(** What [scrapeTweets] does after a restoration that did not throw. *)
Definition finish (tws' : list Tweet) : M unit :=
  setScrapedData {| tweets := tws' |} ;;
  console (LogFinal tws') ;;
  setProgress "Scraping completed successfully!".

(** ** The first revision's [scrapePageContent] *)

(** The object literal of the first revision: as [tweet_of_cell], but a
    node without a link is kept, with [tweetUrl || '']. *)
Definition page_tweet (tweetEl : Cell) : Tweet :=
  {| tweet := text_of (q_tweetText tweetEl);
     userName := text_of (q_userName tweetEl);
     timestamp := attr_of (q_time tweetEl) "datetime";
     likes := count_of (q_like tweetEl);
     retweets := count_of (q_retweet tweetEl);
     tweetUrl := opt_or_else (cell_url tweetEl) "";
     comments := [] |}.

(** [tweetElements.forEach(... tweets.push(tweet))], then [return { tweets }]. *)
Definition scrapePageContent (tweetElements : list Cell) : ScrapedData :=
  {| tweets := fold_left (λ tws tweetEl, tws ++ [page_tweet tweetEl]) tweetElements [] |}.

(** ** The comment extractor injected by [scrapeComments] *)

(** A [[data-testid="tweet"]] node of a tweet's page, given by what
    [querySelector] answers on it for the five selectors used. *)
Record ReplyEl := mkReplyEl {
  r_tweetText : option Element;    (* [data-testid="tweetText"]  *)
  r_userName : option Element;     (* [data-testid="User-Name"]  *)
  r_time : option Element;         (* time                       *)
  r_like : option Element;         (* [data-testid="like"]       *)
  r_reply : option Element         (* [data-testid="reply"]      *)
}.

(** The object literal: [x?.textContent || ''] is [text_of x] and so on. *)
Definition comment_of_el (commentEl : ReplyEl) : Comment :=
  {| c_text := text_of (r_tweetText commentEl);
     c_userName := text_of (r_userName commentEl);
     c_timestamp := attr_of (r_time commentEl) "datetime";
     c_likes := count_of (r_like commentEl);
     c_replies := count_of (r_reply commentEl) |}.

(** [commentElements.forEach(... comments.push(comment))], then
    [return comments]. *)
Definition extract_comments (commentElements : list ReplyEl) : list Comment :=
  fold_left (λ cs commentEl, cs ++ [comment_of_el commentEl]) commentElements [].

(** ** More reference definitions *)

Fixpoint has_space (s : string) : bool :=
  match s with
  | EmptyString => false
  | String c r => Ascii.eqb c " "%char || has_space r
  end.

(** The height [previousHeight] holds when tick [i] (counted from 0) runs
    and no earlier tick resolved: 0 at first, then the height read by the
    tick before. *)
Definition height_before (page : Page) (i : nat) : Z :=
  match i with
  | O => 0
  | S j => scrollHeight (page j)
  end.

(** [t] was built from the first of the nodes [cs] that carries its URL. *)
Definition built_from_first_node (cs : list Cell) (t : Tweet) : Prop :=
  ∃ cs1 c cs2,
    cs = cs1 ++ c :: cs2
    ∧ accepted_url c = Some (tweetUrl t)
    ∧ t = tweet_of_cell c (tweetUrl t)
    ∧ ∀ c', c' ∈ cs1 → accepted_url c' ≠ Some (tweetUrl t).

(** A list of tweets with, for every URL, all but the first tweet dropped. *)
Fixpoint first_by_url (l : list Tweet) : list Tweet :=
  match l with
  | [] => []
  | t :: l' => t :: filter (λ t', tweetUrl t' ≠ tweetUrl t) (first_by_url l')
  end.

(** Two React states that differ at most in [progress]. *)
Definition same_but_progress (s s' : AppState) : Prop :=
  scrapedData s' = scrapedData s ∧ isLoading s' = isLoading s ∧ error s' = error s
  ∧ tweetCount s' = tweetCount s ∧ copyStatus s' = copyStatus s
  ∧ searchTerm s' = searchTerm s.

(** The query made by the fetch for [url], started in world [w], found a
    first tab with the truthy id [id]. *)
Definition fetch_tab (chrome : Chrome) (url : string) (w : World) (id : Z) : Prop :=
  ∃ t rest,
    answer_query chrome (trace w ++ [Console (LogScrapingComments url); TabsQuery])
      = inr (t :: rest)
    ∧ tab_id t = Some id ∧ id ≠ 0.

(** ** Sample pages *)

Definition link (href : string) : Element :=
  {| textContent := ""; attributes := {[ "href" := href ]} |}.

(** A node with a status link and nothing else. *)
Definition bare_cell (href : string) : Cell :=
  {| q_statusLink := Some (link href); q_tweetText := None; q_userName := None;
     q_time := None; q_like := None; q_retweet := None |}.

(** A page that never changes. *)
Definition static_page (cs : list Cell) (h : Z) : Page :=
  λ _, {| cells := cs; scrollHeight := h |}.

(** Three distinct tweets on a page 1000 pixels high. *)
Definition three_static : Page :=
  static_page [bare_cell "/a/status/1"; bare_cell "/b/status/2"; bare_cell "/c/status/3"] 1000.

(** Three nodes for one tweet and one node for another. *)
Definition dup_page : Page :=
  static_page [bare_cell "/a/status/1"; bare_cell "/b/status/2";
               bare_cell "/a/status/1"; bare_cell "/a/status/1"] 800.

(** A page that grows at every tick and never shows a tweet. *)
Definition restless_page : Page :=
  λ t, {| cells := []; scrollHeight := Z.of_nat (S t) |}.

(** ** Sample browsers *)

Definition idle : World :=
  {| ui := {| scrapedData := None; isLoading := false; error := None; progress := "";
              tweetCount := 50; copyStatus := ""; searchTerm := "" |};
     trace := [] |}.

Definition home_tab : Tab :=
  {| tab_id := Some 7; tab_url := Some "https://twitter.com/home" |}.

Definition tweet_a : Tweet := tweet_of_cell (bare_cell "/a/status/1") "/a/status/1".
Definition tweet_b : Tweet := tweet_of_cell (bare_cell "/b/status/2") "/b/status/2".

Definition a_comment : Comment :=
  {| c_text := "nice"; c_userName := "bob"; c_timestamp := "2024-01-01T00:00:00.000Z";
     c_likes := "3"; c_replies := "0" |}.

(** Whether the collector has already been injected in this history. *)
Definition collected_already (tr : list Event) : bool :=
  existsb (λ e, match e with ExecCollect _ => true | _ => false end) tr.

(** The navigation the history ends with, if it ends with one. *)
Definition last_navigation (tr : list Event) : option string :=
  match last tr with
  | Some (TabsUpdate _ u) => Some u
  | _ => None
  end.

(** Everything works: two tweets are found, each has one comment. *)
Definition healthy_chrome : Chrome :=
  {| answer_query := λ _, inr [home_tab];
     answer_update := λ _, inr tt;
     answer_setCount := λ _, inr tt;
     answer_collect := λ _, inr [mkInjectionResult (Some [tweet_a; tweet_b])];
     answer_comments := λ _, inr [mkInjectionResult (Some [a_comment])] |}.

(** As [healthy_chrome], but the page of the first tweet fails to load. *)
Definition flaky_chrome : Chrome :=
  {| answer_query := λ _, inr [home_tab];
     answer_update := λ tr,
       if decide (last_navigation tr = Some "https://twitter.com/a/status/1")
       then inl "net::ERR_ABORTED" else inr tt;
     answer_setCount := λ _, inr tt;
     answer_collect := λ _, inr [mkInjectionResult (Some [tweet_a; tweet_b])];
     answer_comments := λ _, inr [mkInjectionResult (Some [a_comment])] |}.

(** As [healthy_chrome], but once the collector has run the active tab is
    one without an id; the tab the run started in is still there. *)
Definition detached_chrome : Chrome :=
  {| answer_query := λ tr,
       if collected_already tr then inr [{| tab_id := None; tab_url := None |}]
       else inr [home_tab];
     answer_update := λ _, inr tt;
     answer_setCount := λ _, inr tt;
     answer_collect := λ _, inr [mkInjectionResult (Some [tweet_a; tweet_b])];
     answer_comments := λ _, inr [mkInjectionResult (Some [a_comment])] |}.

(** The page refuses injected scripts. *)
Definition blocked_chrome : Chrome :=
  {| answer_query := λ _, inr [home_tab];
     answer_update := λ _, inr tt;
     answer_setCount := λ _, inl "Cannot access contents of the page";
     answer_collect := λ _, inl "Cannot access contents of the page";
     answer_comments := λ _, inl "Cannot access contents of the page" |}.

(** Two tweets are found, then every navigation is refused. *)
Definition stuck_chrome : Chrome :=
  {| answer_query := λ _, inr [home_tab];
     answer_update := λ _, inl "No tab with id: 7";
     answer_setCount := λ _, inr tt;
     answer_collect := λ _, inr [mkInjectionResult (Some [tweet_a; tweet_b])];
     answer_comments := λ _, inr [mkInjectionResult (Some [a_comment])] |}.

(** One tweet is found, then the tab is closed: no tab is active any more
    and the old id is refused. *)
Definition closed_chrome : Chrome :=
  {| answer_query := λ tr, if collected_already tr then inr [] else inr [home_tab];
     answer_update := λ _, inl "No tab with id: 7";
     answer_setCount := λ _, inr tt;
     answer_collect := λ _, inr [mkInjectionResult (Some [tweet_a])];
     answer_comments := λ _, inr [] |}.

(** A world in which an earlier run has left one tweet on display. *)
Definition after_a_run : World :=
  {| ui := {| scrapedData := Some {| tweets := [tweet_a] |}; isLoading := false;
              error := None; progress := "Scraping completed successfully!";
              tweetCount := 50; copyStatus := ""; searchTerm := "rocq" |};
     trace := [] |}.

(** As [healthy_chrome], with the collector run on [dup_page]: the
    injection resolves with what the collector's promise resolves with. *)
Definition dup_page_chrome : Chrome :=
  {| answer_query := λ _, inr [home_tab];
     answer_update := λ _, inr tt;
     answer_setCount := λ _, inr tt;
     answer_collect := λ _, inr [mkInjectionResult (scrollAndCollect 50 50 dup_page)];
     answer_comments := λ _, inr [mkInjectionResult (Some [a_comment])] |}.

(** ** The timer when [document.body] may be missing *)

(** What a firing of the timer finds: the nodes, and the height of
    [document.body] when there is a body.  [Snapshot] is the case with a
    body. *)
Record DomSnapshot := mkDomSnapshot {
  dom_cells : list Cell;
  dom_body : option Z
}.

(** The page over time, indexed by the number of firings so far. *)
Definition DomPage := nat → DomSnapshot.

(** One firing.  With a body it is [interval_callback].  Without one,
    [document.body.scrollHeight] throws in the call of [window.scrollTo],
    after the [forEach]: the set and the array keep what the scan added,
    [scrollAttempts] and [previousHeight] are not touched, the interval is not
    cleared and the promise is not resolved. *)
Definition dom_callback (targetTweetCount : Z) (snap : DomSnapshot) (st : ScrollState)
  : ScrollState * bool :=
  match dom_body snap with
  | Some h =>
      interval_callback targetTweetCount {| cells := dom_cells snap; scrollHeight := h |} st
  | None =>
      let '(seen, tws) :=
        forEach_cells (dom_cells snap) (processedTweetUrls st, collected st) in
      ({| previousHeight := previousHeight st; scrollAttempts := scrollAttempts st;
          processedTweetUrls := seen; collected := tws |}, false)
  end.

(** The timer: a firing that threw is followed by the next one, as one
    that did not resolve.  [fired] counts the firings so far. *)
Fixpoint run_interval_dom (fuel : nat) (targetTweetCount : Z) (page : DomPage)
    (fired : nat) (st : ScrollState) : option ScrollState :=
  match fuel with
  | O => None
  | S fuel' =>
      let '(st', resolved) := dom_callback targetTweetCount (page fired) st in
      if resolved then Some st'
      else run_interval_dom fuel' targetTweetCount page (S fired) st'
  end.

Definition scrollAndCollect_dom (fuel : nat) (targetTweetCount : Z) (page : DomPage)
  : option ScrollState :=
  run_interval_dom fuel targetTweetCount page 0 scroll_init.

(** The page as [Snapshot]s, for the firings that find a body. *)
Definition with_body (page : DomPage) : Page :=
  λ t, {| cells := dom_cells (page t); scrollHeight := default 0 (dom_body (page t)) |}.

(** A document that never has a body. *)
Definition bodyless_page : DomPage :=
  λ _, {| dom_cells := []; dom_body := None |}.

(** As [restless_page], every firing finding a body. *)
Definition restless_dom : DomPage :=
  λ t, {| dom_cells := []; dom_body := Some (Z.of_nat (S t)) |}.

(** ** Statements of the specification that the code does not meet *)

(** Scenario A as written: three distinct nodes on a static page, target 50,
    resolve with three tweets on the first tick. *)
Definition scenario_A_as_stated : Prop :=
  ∀ (page : Page) (c1 c2 c3 : Cell) (u1 u2 u3 : string) (h : Z),
    (∀ t, page t = {| cells := [c1; c2; c3]; scrollHeight := h |}) →
    accepted_url c1 = Some u1 → accepted_url c2 = Some u2 → accepted_url c3 = Some u3 →
    NoDup [u1; u2; u3] →
    ∃ st, scrollAndCollect_state maxScrollAttempts 50 page = Some st
        ∧ length (collected st) = 3%nat
        ∧ scrollAttempts st = 1%nat.

(** The contract of the run as written: it fails with "no active tab", or
    fails with "no tweets", or else resolves with scraped data. *)
Definition run_outcomes_as_stated : Prop :=
  ∀ (chrome : Chrome) (count : Z) (w0 : World),
    (scrapeTweets_try chrome count w0).1 = inl NoActiveTabFound
    ∨ (scrapeTweets_try chrome count w0).1 = inl NoTweetsFound
    ∨ ((scrapeTweets_try chrome count w0).1 = inr tt
       ∧ ∃ d, scrapedData (ui (scrapeTweets_try chrome count w0).2) = Some d).

(** Fault isolation as written: when the fetch for the tweet at index [k]
    throws, the run resolves with as many tweets as were collected, the one
    at [k] without comments. *)
Definition fault_isolation_as_stated : Prop :=
  ∀ (chrome : Chrome) (count : Z) (w0 : World) (t : Tab) (id : Z)
    (results : list (InjectionResult (list Tweet))) (tws : list Tweet)
    (k : nat) (tk : Tweet) (e : Exn),
    collect_answered chrome count w0 t id results →
    head results ≫= result = Some tws →
    tws !! k = Some tk → tweetUrl tk ≠ "" →
    (scrapeComments_try chrome (tweetUrl tk)
       (fetch_world chrome tws (world_at_loop w0 t id count results) k)).1 = inl e →
    ∃ tws' w',
      scrapeTweets_try chrome count w0 = (inr tt, w')
      ∧ scrapedData (ui w') = Some {| tweets := tws' |}
      ∧ length tws' = length tws
      ∧ comments <$> tws' !! k = Some [].

(** The query inside [scrapeComments] finds no tab it can use: it rejects,
    or finds no tab, or a tab whose id is missing or 0. *)
Definition no_usable_tab (answer : string + list Tab) : Prop :=
  match answer with
  | inl _ => True
  | inr [] => True
  | inr (t :: _) => tab_id t = None ∨ tab_id t = Some 0
  end.

(** The history the query of the fetch at index [k] is answered from. *)
Definition trace_at_fetch_query (chrome : Chrome) (tws : list Tweet) (w : World)
    (k : nat) (url : string) : list Event :=
  trace (fetch_world chrome tws w k) ++ [Console (LogScrapingComments url); TabsQuery].

(** A lost tab during the loop as written: the run still resolves with all
    tweets, the affected one without comments. *)
Definition lost_tab_as_stated : Prop :=
  ∀ (chrome : Chrome) (count : Z) (w0 : World) (t : Tab) (id : Z)
    (results : list (InjectionResult (list Tweet))) (tws : list Tweet)
    (k : nat) (tk : Tweet),
    collect_answered chrome count w0 t id results →
    head results ≫= result = Some tws →
    tws !! k = Some tk → tweetUrl tk ≠ "" →
    no_usable_tab (answer_query chrome
      (trace_at_fetch_query chrome tws (world_at_loop w0 t id count results) k (tweetUrl tk))) →
    ∃ tws' w',
      scrapeTweets_try chrome count w0 = (inr tt, w')
      ∧ scrapedData (ui w') = Some {| tweets := tws' |}
      ∧ length tws' = length tws
      ∧ comments <$> tws' !! k = Some [].

(** The exported record as written: the specification's nested record, under
    some naming of its keys. *)
Definition export_shape_as_stated : Prop :=
  ∀ (now term : string) (d : ScrapedData),
    ∃ K, formattedData now term d = harvest_record K d.

(** Termination as written: for every document and every positive target
    the promise is resolved within the ceiling of 50 ticks. *)
Definition always_resolves_as_stated : Prop :=
  ∀ (page : DomPage) (target : Z),
    0 < target →
    ∃ st, scrollAndCollect_dom maxScrollAttempts target page = Some st.

(** * Properties *)

(** ** The collector *)

Section Collector.

Implicit Types (acc : gset string * list Tweet) (cs : list Cell).

Lemma forEach_cells_app cs1 cs2 acc :
  forEach_cells (cs1 ++ cs2) acc = forEach_cells cs2 (forEach_cells cs1 acc).
Proof. apply fold_left_app. Qed.

Lemma filter_filter_ne (seen : gset string) (x : string) (l : list string) :
  filter (λ y, y ∉ {[x]} ∪ seen) l = filter (λ y, y ∉ seen) (filter (λ y, y ≠ x) l).
Proof.
  induction l as [|y l IH]; [done|].
  rewrite !filter_cons. destruct (decide (y = x)) as [->|Hne].
  - rewrite decide_False by set_solver. rewrite decide_False by (intros ?; done). done.
  - rewrite (decide_True (P := y ≠ x)) by done. rewrite filter_cons.
    destruct (decide (y ∉ seen)).
    + rewrite decide_True by set_solver. by rewrite IH.
    + rewrite decide_False by set_solver. done.
Qed.

Lemma filter_seen_ne (seen : gset string) (x : string) (l : list string) :
  x ∈ seen →
  filter (λ y, y ∉ seen) (filter (λ y, y ≠ x) l) = filter (λ y, y ∉ seen) l.
Proof.
  intros Hx. induction l as [|y l IH]; [done|].
  rewrite !filter_cons. destruct (decide (y = x)) as [->|Hne].
  - rewrite decide_False by (intros ?; done). rewrite decide_False by set_solver. done.
  - rewrite (decide_True (P := y ≠ x)) by done. rewrite filter_cons.
    destruct (decide (y ∉ seen)); by rewrite IH.
Qed.

Lemma forEach_cells_cons c cs acc :
  forEach_cells (c :: cs) acc = forEach_cells cs (forEach_body acc c).
Proof. reflexivity. Qed.

Lemma forEach_body_accepted acc c :
  forEach_body acc c =
    match accepted_url c with
    | Some u => if decide (u ∈ acc.1) then acc
                else ({[u]} ∪ acc.1, acc.2 ++ [tweet_of_cell c u])
    | None => acc
    end.
Proof.
  unfold forEach_body, accepted_url. destruct (cell_url c) as [u|]; [|done].
  by destruct (decide (u = "")).
Qed.

Lemma omap_accepted_cons c cs :
  omap accepted_url (c :: cs) =
    match accepted_url c with
    | Some u => u :: omap accepted_url cs
    | None => omap accepted_url cs
    end.
Proof. reflexivity. Qed.

(** One scan: the set gains the accepted URLs, the array gains, at its end,
    one tweet per URL not seen before, in first-occurrence order. *)
Lemma forEach_cells_spec cs acc :
  ∃ new,
    forEach_cells cs acc = (list_to_set (omap accepted_url cs) ∪ acc.1, acc.2 ++ new)
    ∧ tweetUrl <$> new = filter (λ y, y ∉ acc.1) (first_seen (omap accepted_url cs)).
Proof.
  revert acc. induction cs as [|c cs IH]; intros [seen tws].
  - exists []. split; [|done]. cbn. rewrite app_nil_r. f_equal. set_solver.
  - rewrite forEach_cells_cons, forEach_body_accepted, omap_accepted_cons.
    destruct (accepted_url c) as [u|]; [|apply IH].
    cbn [fst snd]. destruct (decide (u ∈ seen)) as [Hin|Hin].
    + destruct (IH (seen, tws)) as (new & -> & Hnew). exists new. cbn [fst snd] in *.
      split; [f_equal; set_solver|].
      cbn [first_seen]. rewrite filter_cons, decide_False by set_solver.
      by rewrite filter_seen_ne.
    + destruct (IH ({[u]} ∪ seen, tws ++ [tweet_of_cell c u])) as (new & -> & Hnew).
      exists (tweet_of_cell c u :: new). cbn [fst snd] in *.
      split; [f_equal; [set_solver|by rewrite <- app_assoc]|].
      cbn [first_seen]. rewrite filter_cons, decide_True by done.
      rewrite fmap_cons. f_equal. by rewrite Hnew, filter_filter_ne.
Qed.

(** *** The callback *)

Lemma interval_callback_attempts target snap st :
  scrollAttempts (interval_callback target snap st).1 = S (scrollAttempts st).
Proof.
  unfold interval_callback.
  destruct (forEach_cells _ _) as [seen tws]. by destruct (stop_test _ _ _ _ _).
Qed.

Lemma interval_callback_scan target snap st :
  (processedTweetUrls (interval_callback target snap st).1,
   collected (interval_callback target snap st).1)
  = forEach_cells (cells snap) (processedTweetUrls st, collected st).
Proof.
  unfold interval_callback.
  destruct (forEach_cells _ _) as [seen tws]. by destruct (stop_test _ _ _ _ _).
Qed.

Lemma interval_callback_resolved target snap st :
  (interval_callback target snap st).2
  = stop_test (scrollHeight snap) (previousHeight st)
      (length (collected (interval_callback target snap st).1)) target
      (S (scrollAttempts st)).
Proof.
  unfold interval_callback.
  destruct (forEach_cells _ _) as [seen tws].
  destruct (stop_test _ _ _ _ _) eqn:E; cbn [fst snd collected]; by rewrite E.
Qed.

Lemma interval_callback_height target snap st :
  previousHeight (interval_callback target snap st).1
  = if (interval_callback target snap st).2 then previousHeight st else scrollHeight snap.
Proof.
  unfold interval_callback.
  destruct (forEach_cells _ _) as [seen tws]. by destruct (stop_test _ _ _ _ _).
Qed.

Lemma stop_test_ceiling h p len target a :
  (maxScrollAttempts ≤ a)%nat → stop_test h p len target a = true.
Proof.
  intros Ha. unfold stop_test.
  rewrite (proj2 (Nat.leb_le _ _) Ha). by rewrite orb_true_r.
Qed.

(** *** The timer *)

Lemma run_interval_S fuel target page st :
  run_interval (S fuel) target page st =
    let r := interval_callback target (page (scrollAttempts st)) st in
    if r.2 then Some r.1 else run_interval fuel target page r.1.
Proof. cbn [run_interval]. by destruct (interval_callback _ _ _). Qed.

(** With a tick left for every attempt up to the ceiling, the promise
    resolves, and not later than the ceiling. *)
Lemma run_interval_resolves fuel target page st :
  (1 ≤ fuel)%nat →
  (maxScrollAttempts - scrollAttempts st ≤ fuel)%nat →
  ∃ st', run_interval fuel target page st = Some st'
       ∧ (scrollAttempts st < scrollAttempts st')%nat
       ∧ (scrollAttempts st' ≤ Nat.max maxScrollAttempts (S (scrollAttempts st)))%nat.
Proof.
  revert st. induction fuel as [|fuel IH]; intros st H1 Hfuel; [lia|].
  rewrite run_interval_S. cbn zeta.
  pose proof (interval_callback_attempts target (page (scrollAttempts st)) st) as Ha.
  pose proof (interval_callback_resolved target (page (scrollAttempts st)) st) as Hr.
  destruct (interval_callback target (page (scrollAttempts st)) st) as [st1 b].
  cbn [fst snd] in *. destruct b.
  - exists st1. split; [done|]. lia.
  - destruct (decide (maxScrollAttempts ≤ S (scrollAttempts st))%nat) as [Hc|Hc].
    { rewrite stop_test_ceiling in Hr by done. done. }
    destruct (IH st1) as (st' & Hrun & Hlt & Hle); [lia|lia|].
    exists st'. split; [done|]. lia.
Qed.

(** What a resolved run did: the ticks it ran are those of [state_after]. *)
Lemma state_after_attempts target page j :
  scrollAttempts (state_after target page j) = j.
Proof.
  induction j as [|j IH]; [done|].
  cbn [state_after]. by rewrite interval_callback_attempts, IH.
Qed.

Lemma run_interval_state_after fuel target page j st' :
  run_interval fuel target page (state_after target page j) = Some st' →
  ∃ k, (j < k ≤ j + fuel)%nat
     ∧ scrollAttempts st' = k
     ∧ processedTweetUrls st' = processedTweetUrls (state_after target page k)
     ∧ collected st' = collected (state_after target page k)
     ∧ (interval_callback target (page (k - 1)%nat) (state_after target page (k - 1)%nat)).2
       = true
     ∧ st' = (interval_callback target (page (k - 1)%nat) (state_after target page (k - 1)%nat)).1
     ∧ ∀ i, (j ≤ i < k - 1)%nat →
         (interval_callback target (page i) (state_after target page i)).2 = false.
Proof.
  revert j. induction fuel as [|fuel IH]; intros j Hrun; [done|].
  rewrite run_interval_S in Hrun. cbn zeta in Hrun.
  rewrite state_after_attempts in Hrun.
  destruct (interval_callback target (page j) (state_after target page j)).2 eqn:Hb.
  - injection Hrun as <-. exists (S j).
    replace (S j - 1)%nat with j by lia.
    split; [lia|]. split; [by rewrite interval_callback_attempts, state_after_attempts|].
    do 4 (split; [done|]). intros i ?; lia.
  - change ((interval_callback target (page j) (state_after target page j)).1)
      with (state_after target page (S j)) in Hrun.
    destruct (IH _ Hrun) as (k & Hk & ? & ? & ? & ? & ? & Hfalse).
    exists k. split; [lia|]. do 5 (split; [done|]).
    intros i Hi. destruct (decide (i = j)) as [->|]; [done|]. apply Hfalse. lia.
Qed.

Lemma state_after_scan target page j :
  (processedTweetUrls (state_after target page j), collected (state_after target page j))
  = forEach_cells (scanned page j) (∅, []).
Proof.
  induction j as [|j IH]; [done|].
  cbn [state_after]. rewrite interval_callback_scan, IH.
  unfold scanned. rewrite seq_S, fmap_app, concat_app, forEach_cells_app.
  cbn. by rewrite app_nil_r.
Qed.

Lemma scanned_le page j k :
  (j ≤ k)%nat → ∃ rest, scanned page k = scanned page j ++ rest.
Proof.
  intros Hjk. replace k with (j + (k - j))%nat by lia.
  unfold scanned. rewrite seq_app, fmap_app, concat_app. eauto.
Qed.

Lemma first_seen_NoDup l : NoDup (first_seen l).
Proof.
  induction l as [|x l IH]; cbn [first_seen]; [constructor|].
  constructor; [|by apply NoDup_filter].
  rewrite list_elem_of_filter. naive_solver.
Qed.


Lemma filter_not_seen_id (seen : gset string) (l : list string) :
  (∀ y, y ∈ l → y ∉ seen) → filter (λ y, y ∉ seen) l = l.
Proof.
  induction l as [|y l IH]; intros Hl; [done|].
  rewrite filter_cons, decide_True by (apply Hl; left).
  rewrite IH; [done|]. intros z Hz. apply Hl. by right.
Qed.

Lemma state_after_urls target page j :
  tweetUrl <$> collected (state_after target page j)
  = first_seen (omap accepted_url (scanned page j)).
Proof.
  pose proof (state_after_scan target page j) as Hs.
  destruct (forEach_cells_spec (scanned page j) (∅, [])) as (new & Heq & Hnew).
  rewrite Heq in Hs. injection Hs as _ ->. cbn [fst snd] in *.
  rewrite Hnew. apply filter_not_seen_id. set_solver.
Qed.

Lemma state_after_prefix target page j k :
  (j ≤ k)%nat →
  collected (state_after target page j) `prefix_of` collected (state_after target page k).
Proof.
  intros Hjk. destruct (scanned_le page j k Hjk) as [rest Hrest].
  pose proof (state_after_scan target page k) as Hk.
  rewrite Hrest, forEach_cells_app, <- (state_after_scan target page j) in Hk.
  destruct (forEach_cells_spec rest
    (processedTweetUrls (state_after target page j), collected (state_after target page j)))
    as (new & Heq & _).
  rewrite Heq in Hk. injection Hk as _ ->. by exists new.
Qed.


(** *** Resolved runs *)

Lemma resolved_state fuel target page st :
  scrollAndCollect_state fuel target page = Some st →
  ∃ k, (1 ≤ k ≤ fuel)%nat
     ∧ scrollAttempts st = k
     ∧ processedTweetUrls st = processedTweetUrls (state_after target page k)
     ∧ collected st = collected (state_after target page k).
Proof.
  intros Hrun. unfold scrollAndCollect_state in Hrun.
  change scroll_init with (state_after target page 0) in Hrun.
  destruct (run_interval_state_after _ _ _ _ _ Hrun) as (k & Hk & ? & ? & ? & _).
  exists k. split; [lia|done].
Qed.

Lemma scanned_S page k : scanned page (S k) = scanned page k ++ cells (page k).
Proof.
  unfold scanned. rewrite seq_S, fmap_app, concat_app. cbn. by rewrite app_nil_r.
Qed.



End Collector.



(** With a timer tick available for every attempt up to the ceiling, and
    a height to read at every tick, the promise resolves: for every page of
    [Snapshot]s and every target there is a final
    state, reached after at least one and at most [maxScrollAttempts] = 50
    ticks, and the promise is resolved with its [collected] array.  If none
    of the nodes scanned had an acceptable URL the array is empty.  There is
    no rejecting path: the only outcomes of [scrollAndCollect] are a
    resolved array and a promise still pending when the fuel runs out. *)
Theorem collect_resolves_within_ceiling fuel target page :
  (maxScrollAttempts ≤ fuel)%nat →
  ∃ st, scrollAndCollect_state fuel target page = Some st
      ∧ scrollAndCollect fuel target page = Some (collected st)
      ∧ (1 ≤ scrollAttempts st ≤ maxScrollAttempts)%nat
      ∧ (omap accepted_url (scanned page (scrollAttempts st)) = [] → collected st = []).
Proof.
  intros Hfuel. unfold maxScrollAttempts in *.
  destruct (run_interval_resolves fuel target page scroll_init) as (st & Hrun & Hlt & Hle).
  { lia. } { unfold maxScrollAttempts. cbn. lia. }
  exists st. split; [done|]. split; [|split].
  - unfold scrollAndCollect, scrollAndCollect_state. by rewrite Hrun.
  - unfold maxScrollAttempts in Hle. cbn in Hlt, Hle. lia.
  - intros Hnone. destruct (resolved_state _ _ _ _ Hrun) as (k & _ & Hat & _ & Hcol).
    apply (fmap_nil_inv tweetUrl). rewrite Hcol, state_after_urls, <- Hat, Hnone. done.
Qed.

(** On [restless_page] the height changes at every tick and no tweet ever
    shows; with a target of 1000 the run ends at the ceiling, empty. *)
Lemma collect_resolves_within_ceiling_witness :
  ∃ st, scrollAndCollect_state 50 1000 restless_page = Some st
      ∧ scrollAndCollect 50 1000 restless_page = Some (collected st)
      ∧ (1 ≤ scrollAttempts st ≤ maxScrollAttempts)%nat
      ∧ (omap accepted_url (scanned restless_page (scrollAttempts st)) = []
         → collected st = []).
Proof.
  apply (collect_resolves_within_ceiling 50 1000 restless_page).
  unfold maxScrollAttempts. lia.
Defined.

(** C5.  The URLs of the resolved array are the accepted URLs of all the
    nodes scanned, tick after tick, each kept at its first occurrence.  The
    array after any earlier tick [j] is a prefix of the resolved array, and
    already lists the first occurrences among the nodes scanned up to [j]:
    later ticks only append. *)
Theorem collector_first_seen_order fuel target page st :
  scrollAndCollect_state fuel target page = Some st →
  tweetUrl <$> collected st
    = first_seen (omap accepted_url (scanned page (scrollAttempts st)))
  ∧ ∀ j, (j ≤ scrollAttempts st)%nat →
      collected (state_after target page j) `prefix_of` collected st
      ∧ tweetUrl <$> collected (state_after target page j)
        = first_seen (omap accepted_url (scanned page j)).
Proof.
  intros Hrun. destruct (resolved_state _ _ _ _ Hrun) as (k & _ & Hat & _ & Hcol).
  rewrite Hcol, Hat. split; [apply state_after_urls|].
  intros j Hj. split; [by apply state_after_prefix|apply state_after_urls].
Qed.

Lemma collector_first_seen_order_witness :
  ∃ st, scrollAndCollect_state 50 50 dup_page = Some st
      ∧ tweetUrl <$> collected st = ["/a/status/1"; "/b/status/2"].
Proof.
  destruct (scrollAndCollect_state 50 50 dup_page) as [st|] eqn:Hrun;
    [|vm_compute in Hrun; discriminate].
  exists st. split; [reflexivity|].
  destruct (collector_first_seen_order 50 50 dup_page st Hrun) as [-> _].
  assert (scrollAttempts st = 2%nat) as ->.
  { vm_compute in Hrun. by injection Hrun as <-. }
  vm_compute. reflexivity.
Defined.

(** *** Scenario A *)

Section ScenarioA.

Variables (c1 c2 c3 : Cell) (u1 u2 u3 : string).
Hypothesis Hc1 : accepted_url c1 = Some u1.
Hypothesis Hc2 : accepted_url c2 = Some u2.
Hypothesis Hc3 : accepted_url c3 = Some u3.
Hypothesis Hdistinct : NoDup [u1; u2; u3].

Local Abbreviation three := [tweet_of_cell c1 u1; tweet_of_cell c2 u2; tweet_of_cell c3 u3].
Local Abbreviation seen3 := ({[u3]} ∪ ({[u2]} ∪ ({[u1]} ∪ (∅ : gset string)))).

Lemma scan_three_first : forEach_cells [c1; c2; c3] (∅, []) = (seen3, three).
Proof.
  apply NoDup_cons in Hdistinct as [Hn1 [Hn2 _]%NoDup_cons].
  unfold forEach_cells. cbn [fold_left].
  rewrite (forEach_body_accepted _ c1), Hc1. cbn [fst snd].
  rewrite decide_False by set_solver.
  rewrite (forEach_body_accepted _ c2), Hc2. cbn [fst snd].
  rewrite decide_False by set_solver.
  rewrite (forEach_body_accepted _ c3), Hc3. cbn [fst snd].
  rewrite decide_False by set_solver.
  reflexivity.
Qed.

Lemma scan_three_again l : forEach_cells [c1; c2; c3] (seen3, l) = (seen3, l).
Proof.
  unfold forEach_cells. cbn [fold_left].
  rewrite (forEach_body_accepted _ c1), Hc1. cbn [fst snd].
  rewrite decide_True by set_solver.
  rewrite (forEach_body_accepted _ c2), Hc2. cbn [fst snd].
  rewrite decide_True by set_solver.
  rewrite (forEach_body_accepted _ c3), Hc3. cbn [fst snd].
  rewrite decide_True by set_solver.
  reflexivity.
Qed.

Lemma static_three_run (page : Page) (h : Z) (fuel : nat) :
  (∀ t, page t = {| cells := [c1; c2; c3]; scrollHeight := h |}) →
  (2 ≤ fuel)%nat →
  scrollAndCollect_state fuel 50 page
  = Some {| previousHeight := h;
            scrollAttempts := if decide (h = 0) then 1 else 2;
            processedTweetUrls := seen3;
            collected := three |}.
Proof.
  intros Hstatic Hfuel. destruct fuel as [|[|fuel]]; [lia|lia|].
  unfold scrollAndCollect_state. rewrite run_interval_S. cbn zeta.
  unfold interval_callback at 1 2 3. rewrite Hstatic. cbn [cells scrollHeight scroll_init
    processedTweetUrls collected previousHeight scrollAttempts].
  rewrite scan_three_first. unfold stop_test. cbn [length].
  destruct (decide (h = 0)) as [->|Hh].
  - reflexivity.
  - rewrite (proj2 (Z.eqb_neq h 0) Hh). cbn [orb Z.leb Z.compare Z.of_nat Nat.leb maxScrollAttempts fst snd].
    rewrite run_interval_S. cbn zeta.
    unfold interval_callback. rewrite Hstatic. cbn [cells scrollHeight
      processedTweetUrls collected previousHeight scrollAttempts].
    rewrite scan_three_again. unfold stop_test. rewrite Z.eqb_refl. reflexivity.
Qed.

End ScenarioA.

(** C7, as the code has it.  On a page that always shows the same three
    nodes with three different accepted URLs and always has height [h], with
    target 50, the promise resolves with exactly the three tweets, in
    document order.  The stop is the height test alone (the height read equals
    [previousHeight]; 3 tweets are below the target; the attempt counter is
    below the ceiling).  It happens on the second tick, the first one that has
    a previous tick to compare with; only a page of height 0, the initial
    value of [previousHeight], stops on the first tick. *)
Theorem static_three_resolves_on_stagnation
    (page : Page) (c1 c2 c3 : Cell) (u1 u2 u3 : string) (h : Z) (fuel : nat) :
  (∀ t, page t = {| cells := [c1; c2; c3]; scrollHeight := h |}) →
  accepted_url c1 = Some u1 → accepted_url c2 = Some u2 → accepted_url c3 = Some u3 →
  NoDup [u1; u2; u3] →
  (2 ≤ fuel)%nat →
  ∃ st, scrollAndCollect_state fuel 50 page = Some st
      ∧ collected st = [tweet_of_cell c1 u1; tweet_of_cell c2 u2; tweet_of_cell c3 u3]
      ∧ scrollAttempts st = (if decide (h = 0) then 1%nat else 2%nat)
      ∧ h = previousHeight st
      ∧ Z.of_nat (length (collected st)) < 50
      ∧ (scrollAttempts st < maxScrollAttempts)%nat.
Proof.
  intros Hstatic H1 H2 H3 Hnd Hfuel.
  eexists. split; [by apply (static_three_run c1 c2 c3 u1 u2 u3)|].
  cbn [collected scrollAttempts previousHeight length].
  do 3 (split; [done|]). split; [lia|].
  unfold maxScrollAttempts. destruct (decide (h = 0)); lia.
Qed.

Lemma static_three_resolves_on_stagnation_witness :
  ∃ st, scrollAndCollect_state 50 50 three_static = Some st
      ∧ length (collected st) = 3%nat
      ∧ scrollAttempts st = 2%nat
      ∧ previousHeight st = 1000.
Proof.
  destruct (static_three_resolves_on_stagnation three_static
              (bare_cell "/a/status/1") (bare_cell "/b/status/2") (bare_cell "/c/status/3")
              "/a/status/1" "/b/status/2" "/c/status/3" 1000 50)
    as (st & Hrun & Hcol & Hat & Hh & _).
  - intros t. reflexivity.
  - reflexivity.
  - reflexivity.
  - reflexivity.
  - apply (bool_decide_unpack _). vm_compute. exact I.
  - lia.
  - exists st. split; [exact Hrun|]. rewrite Hcol, Hat, <- Hh. repeat split.
Defined.

(** C7 as the specification words it does not hold: on [three_static], a
    page 1000 pixels high, the first tick does not resolve the promise. *)
Lemma scenario_A_first_tick_counterexample :
  (interval_callback 50 (three_static 0%nat) scroll_init).2 = false
  ∧ scrollAttempts <$> scrollAndCollect_state maxScrollAttempts 50 three_static = Some 2%nat
  ∧ ¬ scenario_A_as_stated.
Proof.
  split; [vm_compute; reflexivity|]. split; [vm_compute; reflexivity|].
  intros Hclaim.
  destruct (Hclaim three_static
              (bare_cell "/a/status/1") (bare_cell "/b/status/2") (bare_cell "/c/status/3")
              "/a/status/1" "/b/status/2" "/c/status/3" 1000)
    as (st & Hrun & _ & Hat).
  - intros t. reflexivity.
  - reflexivity.
  - reflexivity.
  - reflexivity.
  - apply (bool_decide_unpack _). vm_compute. exact I.
  - vm_compute in Hrun. injection Hrun as <-. discriminate Hat.
Qed.

(** ** The driver *)

Section DriverFacts.

Variable chrome : Chrome.

Implicit Types (w : World) (tws : list Tweet) (tr evs : list Event).

Lemma bind_run {A B} (m : M A) (k : A → M B) w :
  (m ≫= k) w = match m w with
               | (inr a, w') => k a w'
               | (inl e, w') => (inl e, w')
               end.
Proof. reflexivity. Qed.

Lemma navigations_app tr1 tr2 :
  navigations (tr1 ++ tr2) = navigations tr1 ++ navigations tr2.
Proof. apply omap_app. Qed.

Lemma fetched_urls_app tr1 tr2 :
  fetched_urls (tr1 ++ tr2) = fetched_urls tr1 ++ fetched_urls tr2.
Proof. apply omap_app. Qed.

(** *** [scrapeComments] *)

(** The catch: a throwing [try] block yields the empty list. *)
Lemma scrapeComments_catch url w :
  scrapeComments chrome url w =
    match scrapeComments_try chrome url w with
    | (inr cs, w') => (inr cs, w')
    | (inl e, w') =>
        (inr [], {| ui := ui w'; trace := trace w' ++ [Console (ErrScrapingComments e)] |})
    end.
Proof.
  unfold scrapeComments, try_catch.
  destruct (scrapeComments_try chrome url w) as [[e|cs] w']; reflexivity.
Qed.

(** What one call of [scrapeComments_try] leaves in the trace: its own
    log line first, at most one navigation, to the tweet's page, and no
    other log line of the same kind; the React state is not touched. *)
Lemma scrapeComments_try_trace url w :
  ∃ evs,
    (scrapeComments_try chrome url w).2
      = {| ui := ui w; trace := trace w ++ Console (LogScrapingComments url) :: evs |}
    ∧ fetched_urls evs = []
    ∧ (navigations evs = []
       ∨ ∃ id, navigations evs = [(id, "https://twitter.com" +:+ url)]).
Proof.
  unfold scrapeComments_try. rewrite !bind_run. cbn [console emit].
  rewrite bind_run. unfold call at 1. cbn [trace ui].
  destruct (answer_query chrome _) as [m|tabs].
  { exists [TabsQuery]. rewrite <- app_assoc. cbn. auto. }
  cbn [fst snd]. rewrite bind_run. unfold checked_tab_id.
  destruct (head tabs) as [t|].
  2:{ exists [TabsQuery]. rewrite <- app_assoc. cbn. auto. }
  destruct (tab_id t) as [id|].
  2:{ exists [TabsQuery]. rewrite <- app_assoc. cbn. auto. }
  destruct (decide (id = 0)).
  { exists [TabsQuery]. rewrite <- app_assoc. cbn. auto. }
  cbn [ret throw]. rewrite bind_run. unfold call at 1. cbn [trace ui].
  destruct (answer_update chrome _) as [m|[]].
  { exists [TabsQuery; TabsUpdate id ("https://twitter.com" +:+ url)].
    rewrite <- !app_assoc. cbn. eauto. }
  rewrite bind_run. cbn [emit trace ui]. rewrite bind_run. unfold call at 1. cbn [trace ui].
  destruct (answer_comments chrome _) as [m|results].
  { exists [TabsQuery; TabsUpdate id ("https://twitter.com" +:+ url); SetTimeout 3000;
            ExecComments id].
    rewrite <- !app_assoc. cbn. eauto. }
  exists [TabsQuery; TabsUpdate id ("https://twitter.com" +:+ url); SetTimeout 3000;
          ExecComments id].
  destruct (head results); rewrite <- !app_assoc; cbn; eauto.
Qed.

(** [scrapeComments] never throws; it returns the empty list when its
    [try] block throws. *)
Lemma scrapeComments_total url w :
  ∃ cs evs,
    scrapeComments chrome url w
      = (inr cs, {| ui := ui w; trace := trace w ++ Console (LogScrapingComments url) :: evs |})
    ∧ fetched_urls evs = []
    ∧ (navigations evs = []
       ∨ ∃ id, navigations evs = [(id, "https://twitter.com" +:+ url)])
    ∧ (∀ e, (scrapeComments_try chrome url w).1 = inl e → cs = []).
Proof.
  rewrite scrapeComments_catch.
  destruct (scrapeComments_try_trace url w) as (evs & Hw & Hf & Hn).
  destruct (scrapeComments_try chrome url w) as [[e|cs] w']; cbn [fst snd] in *; subst w'.
  - exists [], (evs ++ [Console (ErrScrapingComments e)]). cbn [ui trace].
    rewrite <- app_assoc. cbn [app]. split; [done|].
    rewrite fetched_urls_app, navigations_app, Hf, !app_nil_r. auto.
  - exists cs, evs. split; [done|]. split; [done|]. split; [done|]. intros e [=].
Qed.

(** *** The loop *)

Lemma same_but_comments_refl t : same_but_comments t t.
Proof. by destruct t. Qed.

Lemma same_but_comments_set t cs : same_but_comments t (set_comments t cs).
Proof. reflexivity. Qed.

Lemma same_but_comments_trans t1 t2 t3 :
  same_but_comments t1 t2 → same_but_comments t2 t3 → same_but_comments t1 t3.
Proof. unfold same_but_comments. intros -> ->. reflexivity. Qed.

Lemma same_but_comments_url t t' : same_but_comments t t' → tweetUrl t' = tweetUrl t.
Proof. by intros ->. Qed.

Lemma Forall2_same_refl tws : Forall2 same_but_comments tws tws.
Proof. induction tws; constructor; [apply same_but_comments_refl|done]. Qed.

Lemma Forall2_same_trans tws1 tws2 tws3 :
  Forall2 same_but_comments tws1 tws2 → Forall2 same_but_comments tws2 tws3 →
  Forall2 same_but_comments tws1 tws3.
Proof.
  intros H12. revert tws3. induction H12; intros tws3 H23; inversion H23; subst;
    constructor; eauto using same_but_comments_trans.
Qed.

Lemma Forall2_same_insert tws i t cs :
  tws !! i = Some t → Forall2 same_but_comments tws (<[i := set_comments t cs]> tws).
Proof.
  intros Hi. apply Forall2_same_length_lookup. split; [by rewrite length_insert|].
  intros j x y Hx Hy. destruct (decide (i = j)) as [->|Hne].
  - rewrite list_lookup_insert_eq in Hy by (by eapply lookup_lt_Some).
    injection Hy as <-. rewrite Hi in Hx. injection Hx as <-. reflexivity.
  - rewrite list_lookup_insert_ne in Hy by done. rewrite Hx in Hy. injection Hy as <-.
    apply same_but_comments_refl.
Qed.

(** One iteration at an index inside the array. *)
Lemma loop_body_spec i tws t w :
  tws !! i = Some t →
  ∃ cs evs,
    loop_body chrome i tws w
      = (inr (if decide (tweetUrl t = "") then tws else <[i := set_comments t cs]> tws),
         {| ui := ui (setProgress (progress_line i (length tws)) w).2;
            trace := trace w ++ evs |})
    ∧ fetched_urls evs = (if decide (tweetUrl t = "") then [] else [tweetUrl t])
    ∧ Forall (λ n, ∃ u, n.2 = "https://twitter.com" +:+ u) (navigations evs)
    ∧ (∀ e, (scrapeComments_try chrome (tweetUrl t)
               (setProgress (progress_line i (length tws)) w).2).1 = inl e → cs = []).
Proof.
  intros Hi. unfold loop_body. rewrite bind_run. cbn [setProgress modify_ui]. rewrite Hi.
  destruct (decide (tweetUrl t = "")) as [Hurl|Hurl].
  - exists [], []. cbn [ret ui trace]. rewrite app_nil_r. repeat split; done.
  - rewrite bind_run.
    destruct (scrapeComments_total (tweetUrl t)
      {| ui := ui (modify_ui (λ s, {| scrapedData := scrapedData s; isLoading := isLoading s;
                                      error := error s; progress := progress_line i (length tws);
                                      tweetCount := tweetCount s; copyStatus := copyStatus s;
                                      searchTerm := searchTerm s |}) w).2;
         trace := trace w |}) as (cs & evs & Hrun & Hf & Hn & Hthrow).
    cbn [modify_ui ui trace snd] in *. rewrite Hrun. cbn [ret].
    exists cs, (Console (LogScrapingComments (tweetUrl t)) :: evs).
    split; [done|]. split.
    { change (fetched_urls (Console (LogScrapingComments (tweetUrl t)) :: evs))
        with (tweetUrl t :: fetched_urls evs). by rewrite Hf. }
    split; [|done].
    change (navigations (Console (LogScrapingComments (tweetUrl t)) :: evs))
      with (navigations evs).
    destruct Hn as [->|[id ->]]; repeat constructor. by exists (tweetUrl t).
Qed.

Lemma for_indices_app idxs1 idxs2 tws w :
  for_indices chrome (idxs1 ++ idxs2) tws w =
    match for_indices chrome idxs1 tws w with
    | (inr tws1, w1) => for_indices chrome idxs2 tws1 w1
    | (inl e, w1) => (inl e, w1)
    end.
Proof.
  revert tws w. induction idxs1 as [|i idxs1 IH]; intros tws w; [done|].
  cbn [app for_indices]. rewrite !bind_run.
  destruct (loop_body chrome i tws w) as [[e|tws1] w1]; [done|]. apply IH.
Qed.

(** Iterations [j], ..., [j + n - 1], all inside the array: they do not
    throw, they change nothing but the comments of the tweets at those
    indices, and they call [scrapeComments] once per non-empty URL, in index
    order. *)
Lemma for_indices_seq n j tws w :
  (j + n ≤ length tws)%nat →
  ∃ tws' w' evs,
    for_indices chrome (seq j n) tws w = (inr tws', w')
    ∧ trace w' = trace w ++ evs
    ∧ Forall2 same_but_comments tws tws'
    ∧ take j tws' = take j tws
    ∧ drop (j + n) tws' = drop (j + n) tws
    ∧ fetched_urls evs
      = filter (λ u, u ≠ "") (tweetUrl <$> take n (drop j tws))
    ∧ Forall (λ n, ∃ u, n.2 = "https://twitter.com" +:+ u) (navigations evs).
Proof.
  revert j tws w. induction n as [|n IH]; intros j tws w Hlen.
  - exists tws, w, []. cbn [seq for_indices ret]. rewrite app_nil_r.
    split; [done|]. split; [done|]. split; [apply Forall2_same_refl|]. by rewrite Nat.add_0_r.
  - cbn [seq for_indices]. rewrite bind_run.
    destruct (lookup_lt_is_Some_2 tws j) as [t Ht]; [lia|].
    destruct (loop_body_spec j tws t w Ht) as (cs & evs1 & Hbody & Hf1 & Hn1 & _).
    rewrite Hbody.
    set (tws1 := if decide (tweetUrl t = "") then tws else <[j := set_comments t cs]> tws).
    assert (Forall2 same_but_comments tws tws1) as H01.
    { subst tws1. destruct (decide _); [apply Forall2_same_refl|by apply Forall2_same_insert]. }
    assert (length tws1 = length tws) as Hlen1.
    { symmetry. by eapply Forall2_length. }
    assert (take j tws1 = take j tws) as Htake1.
    { subst tws1. destruct (decide _); [done|]. by rewrite take_insert_ge by lia. }
    assert (drop (S j) tws1 = drop (S j) tws) as Hdrop1.
    { subst tws1. destruct (decide _); [done|]. by rewrite drop_insert_lt by lia. }
    match goal with |- context [for_indices chrome _ _ ?w1] =>
      destruct (IH (S j) tws1 w1) as (tws' & w' & evs2 & Hrest & Htr & H12 & Htake & Hdrop & Hf2 & Hn2)
    end; [lia|].
    exists tws', w', (evs1 ++ evs2). rewrite Hrest. split; [done|].
    split; [by rewrite Htr, app_assoc|].
    split; [by eapply Forall2_same_trans|].
    split.
    { assert (take j tws' = take j (take (S j) tws')) as ->
        by (rewrite take_take; f_equal; lia).
      rewrite Htake, take_take. by replace (j `min` S j)%nat with j by lia. }
    split.
    { replace (j + S n)%nat with (S j + n)%nat by lia.
      rewrite Hdrop. rewrite <- (drop_drop tws1 n (S j)), Hdrop1. by rewrite drop_drop. }
    split.
    { rewrite fetched_urls_app, Hf1, Hf2, Hdrop1.
      rewrite (drop_S tws t j Ht). cbn [take fmap list_fmap].
      rewrite filter_cons. by destruct (decide (tweetUrl t = "")); destruct (decide (tweetUrl t ≠ "")). }
    rewrite navigations_app. by apply Forall_app.
Qed.

(** *** The first steps of [scrapeTweets] *)

Lemma comments_loop_spec tws w :
  ∃ tws' w' evs,
    comments_loop chrome tws w = (inr tws', w')
    ∧ trace w' = trace w ++ evs
    ∧ Forall2 same_but_comments tws tws'
    ∧ fetched_urls evs = filter (λ u, u ≠ "") (tweetUrl <$> tws)
    ∧ Forall (λ n, ∃ u, n.2 = "https://twitter.com" +:+ u) (navigations evs).
Proof.
  destruct (for_indices_seq (length tws) 0 tws w) as
    (tws' & w' & evs & Hrun & Htr & Hsame & _ & _ & Hf & Hn); [done|].
  exists tws', w', evs. rewrite drop_0, firstn_all in Hf. done.
Qed.

(** [find_tweets] case by case on the browser's answers. *)
Lemma find_tweets_run count w0 :
  find_tweets chrome count w0 =
    match answer_query chrome (trace w0 ++ [TabsQuery]) with
    | inl m => (inl (Rejected m), {| ui := ui w0; trace := trace w0 ++ [TabsQuery] |})
    | inr tabs =>
        match head tabs with
        | None => (inl (TypeError "id"),
                   {| ui := ui w0;
                      trace := trace w0 ++ [TabsQuery; Console (LogCurrentTab None)] |})
        | Some t =>
            let w1 := {| ui := ui w0;
                         trace := trace w0 ++ [TabsQuery; Console (LogCurrentTab (Some t))] |} in
            match tab_id t with
            | None => (inl NoActiveTabFound, w1)
            | Some id =>
                if decide (id = 0) then (inl NoActiveTabFound, w1)
                else
                  match answer_setCount chrome (trace_at_setCount w0 t id count) with
                  | inl m => (inl (Rejected m),
                              {| ui := ui (setProgress "Finding tweets..." w0).2;
                                 trace := trace_at_setCount w0 t id count |})
                  | inr _ =>
                      match answer_collect chrome (trace_at_collect w0 t id count) with
                      | inl m => (inl (Rejected m),
                                  {| ui := ui (setProgress "Finding tweets..." w0).2;
                                     trace := trace_at_collect w0 t id count |})
                      | inr results =>
                          match head results ≫= result with
                          | None | Some [] =>
                              (inl NoTweetsFound, world_at_loop w0 t id count results)
                          | Some tws =>
                              (inr (id, tab_url t, tws), world_at_loop w0 t id count results)
                          end
                      end
                  end
            end
        end
    end.
Proof.
  unfold find_tweets. rewrite bind_run. unfold call at 1. cbn [trace ui].
  destruct (answer_query chrome _) as [m|tabs]; [done|].
  rewrite bind_run. cbn [console emit trace ui]. rewrite bind_run. unfold checked_tab_id.
  rewrite <- app_assoc. cbn [app].
  destruct (head tabs) as [t|]; [|done].
  destruct (tab_id t) as [id|]; [|done].
  destruct (decide (id = 0)); [done|].
  cbn [ret]. rewrite bind_run. cbn [setProgress modify_ui ui trace].
  rewrite bind_run. unfold call at 1. cbn [trace ui].
  unfold trace_at_collect, trace_at_setCount, world_at_loop, trace_at_collect, trace_at_setCount.
  rewrite <- !app_assoc. cbn [app].
  destruct (answer_setCount chrome _) as [m|[]]; [done|].
  rewrite bind_run. unfold call at 1. cbn [trace ui].
  rewrite <- !app_assoc. cbn [app].
  destruct (answer_collect chrome _) as [m|results]; [done|].
  rewrite bind_run. cbn [console emit trace ui].
  rewrite <- !app_assoc. cbn [app].
  destruct (head results ≫= result) as [[|tw tws]|]; reflexivity.
Qed.

(** The [try] block, phase by phase. *)
Lemma scrapeTweets_try_run count w0 :
  scrapeTweets_try chrome count w0 =
    match find_tweets chrome count w0 with
    | (inl e, w1) => (inl e, w1)
    | (inr (id, originalUrl, tws), w1) =>
        match comments_loop chrome tws w1 with
        | (inl e, w2) => (inl e, w2)
        | (inr tws', w2) =>
            match restore chrome id originalUrl w2 with
            | (inl e, w3) => (inl e, w3)
            | (inr _, w3) => finish tws' w3
            end
        end
    end.
Proof.
  unfold scrapeTweets_try. rewrite bind_run.
  destruct (find_tweets chrome count w0) as [[e|[[id url] tws]] w1]; [done|].
  rewrite bind_run. destruct (comments_loop chrome tws w1) as [[e|tws'] w2]; [done|].
  rewrite bind_run. destruct (restore chrome id url w2) as [[e|[]] w3]; done.
Qed.

Lemma finish_run tws' w :
  ∃ w', finish tws' w = (inr tt, w')
      ∧ scrapedData (ui w') = Some {| tweets := tws' |}
      ∧ trace w' = trace w ++ [Console (LogFinal tws')].
Proof. eexists. split; [reflexivity|]. split; reflexivity. Qed.

(** The restoration: one navigation to a truthy [originalUrl], nothing for
    a missing or empty one; it can only fail by the browser's rejection. *)
Lemma restore_run id originalUrl w :
  ∃ r,
    restore chrome id originalUrl w
      = (r, {| ui := ui w;
              trace := trace w ++ match originalUrl with
                                  | Some u => if decide (u = "") then [] else [TabsUpdate id u]
                                  | None => []
                                  end |})
    ∧ (r = inr tt ∨ ∃ m, r = inl (Rejected m)).
Proof.
  unfold restore. destruct originalUrl as [u|].
  2:{ exists (inr tt). rewrite app_nil_r. destruct w; auto. }
  destruct (decide (u = "")).
  { exists (inr tt). rewrite app_nil_r. destruct w; auto. }
  unfold call. cbn [trace ui].
  destruct (answer_update chrome _) as [m|[]]; eexists; split; eauto.
Qed.

(** The loop around one index [k]: the iterations before it, iteration
    [k] itself, and the iterations after it, which go on whatever the fetch
    of [k] did. *)
Lemma comments_loop_split tws w k tk :
  tws !! k = Some tk →
  ∃ before w_k cs w_k' tws' w2,
    loop_prefix chrome tws w k = (inr before, w_k)
    ∧ take k tws' = take k before
    ∧ loop_body chrome k before w_k
      = (inr (if decide (tweetUrl tk = "") then before else <[k := set_comments tk cs]> before),
         w_k')
    ∧ (∀ e, (scrapeComments_try chrome (tweetUrl tk) (fetch_world chrome tws w k)).1 = inl e
            → cs = [])
    ∧ for_indices chrome (seq (S k) (length tws - S k))
        (if decide (tweetUrl tk = "") then before else <[k := set_comments tk cs]> before) w_k'
      = (inr tws', w2)
    ∧ comments_loop chrome tws w = (inr tws', w2)
    ∧ tws' !! k = Some (if decide (tweetUrl tk = "") then tk else set_comments tk cs)
    ∧ Forall2 same_but_comments tws tws'.
Proof.
  intros Hk. pose proof (lookup_lt_Some _ _ _ Hk) as Hlt.
  destruct (for_indices_seq k 0 tws w) as
    (before & w_k & evs & Hpre & _ & Hsame0 & _ & Hdrop0 & _); [lia|].
  cbn [Nat.add] in Hdrop0.
  assert (length before = length tws) as Hlen0 by (symmetry; by eapply Forall2_length).
  assert (before !! k = Some tk) as Hbk.
  { rewrite <- (Nat.add_0_r k), <- lookup_drop, Hdrop0, lookup_drop, Nat.add_0_r. done. }
  destruct (loop_body_spec k before tk w_k Hbk) as (cs & evs1 & Hbody & _ & _ & Hthrow).
  set (mid := if decide (tweetUrl tk = "") then before else <[k := set_comments tk cs]> before)
    in *.
  assert (length mid = length tws) as Hlen1.
  { subst mid. destruct (decide _); [done|]. by rewrite length_insert. }
  assert (Forall2 same_but_comments before mid) as Hsame1.
  { subst mid. destruct (decide _); [apply Forall2_same_refl|by apply Forall2_same_insert]. }
  assert (mid !! k = Some (if decide (tweetUrl tk = "") then tk else set_comments tk cs)) as Hmk.
  { subst mid. destruct (decide _); [done|]. apply list_lookup_insert_eq. lia. }
  match type of Hbody with _ = (_, ?w1) => set (w_k' := w1) in * end.
  destruct (for_indices_seq (length tws - S k) (S k) mid w_k') as
    (tws' & w2 & evs2 & Hrest & _ & Hsame2 & Htake2 & _); [lia|].
  exists before, w_k, cs, w_k', tws', w2.
  split; [exact Hpre|]. split.
  { assert (take k tws' = take k (take (S k) tws')) as ->
      by (rewrite take_take; f_equal; lia).
    rewrite Htake2, take_take. replace (k `min` S k)%nat with k by lia.
    subst mid. destruct (decide _); [done|]. by rewrite take_insert_ge by lia. }
  split; [exact Hbody|]. split.
  { intros e He. apply (Hthrow e). unfold fetch_world in He.
    unfold loop_prefix in He. rewrite Hpre in He. cbn [snd] in He. by rewrite Hlen0. }
  split; [exact Hrest|]. split.
  { unfold comments_loop.
    replace (length tws) with (k + S (length tws - S k))%nat at 1 by lia.
    rewrite seq_app, for_indices_app. unfold loop_prefix in Hpre. rewrite Hpre.
    cbn [Nat.add seq for_indices]. rewrite bind_run, Hbody. exact Hrest. }
  split.
  { rewrite <- Hmk.
    rewrite <- (lookup_take_lt tws' (S k) k), <- (lookup_take_lt mid (S k) k) by lia.
    by rewrite Htake2. }
  eauto using Forall2_same_trans.
Qed.

(** *** What the first steps can end in *)

Lemma head_cons_inv {A} (l : list A) (x : A) : head l = Some x → ∃ rest, l = x :: rest.
Proof. destruct l as [|y l]; [done|]. intros [= ->]. eauto. Qed.

Lemma find_tweets_ok_inv count w0 id originalUrl tws w1 :
  find_tweets chrome count w0 = (inr (id, originalUrl, tws), w1) →
  ∃ t results,
    collect_answered chrome count w0 t id results
    ∧ originalUrl = tab_url t
    ∧ head results ≫= result = Some tws
    ∧ tws ≠ []
    ∧ w1 = world_at_loop w0 t id count results.
Proof.
  rewrite find_tweets_run.
  destruct (answer_query chrome _) as [m|tabs] eqn:Hq; [done|].
  destruct (head tabs) as [t|] eqn:Hhd; [|done]. cbn zeta.
  destruct (tab_id t) as [id'|] eqn:Hid; [|done].
  destruct (decide (id' = 0)); [done|].
  destruct (answer_setCount chrome _) as [m|[]] eqn:Hs; [done|].
  destruct (answer_collect chrome _) as [m|results] eqn:Hc; [done|].
  destruct (head results ≫= result) as [[|tw tws0]|] eqn:Hr; [done| |done].
  intros [= <- <- <- <-]. exists t, results.
  destruct (head_cons_inv _ _ Hhd) as [rest ->].
  unfold collect_answered. eauto 10.
Qed.

Lemma find_tweets_ok count w0 t id results tws :
  collect_answered chrome count w0 t id results →
  head results ≫= result = Some tws → tws ≠ [] →
  find_tweets chrome count w0
    = (inr (id, tab_url t, tws), world_at_loop w0 t id count results).
Proof.
  intros ([rest Hq] & Hid & Hne & Hs & Hc) Hr Hnil.
  rewrite find_tweets_run, Hq. cbn [head]. cbn zeta. rewrite Hid.
  rewrite decide_False by done. rewrite Hs, Hc, Hr. by destruct tws.
Qed.

Lemma find_tweets_no_navigation count w0 :
  navigations (trace (find_tweets chrome count w0).2) = navigations (trace w0).
Proof.
  rewrite find_tweets_run.
  unfold world_at_loop, trace_at_collect, trace_at_setCount.
  destruct (answer_query chrome _) as [m|tabs];
    [cbn [snd trace]; by rewrite navigations_app, app_nil_r|].
  destruct (head tabs) as [t|];
    [|cbn [snd trace]; by rewrite navigations_app, app_nil_r]. cbn zeta.
  destruct (tab_id t) as [id|];
    [|cbn [snd trace]; by rewrite navigations_app, app_nil_r].
  destruct (decide (id = 0));
    [cbn [snd trace]; by rewrite navigations_app, app_nil_r|].
  destruct (answer_setCount chrome _) as [m|[]];
    [cbn [snd trace]; by rewrite navigations_app, app_nil_r|].
  destruct (answer_collect chrome _) as [m|results];
    [cbn [snd trace]; by rewrite !navigations_app, !app_nil_r|].
  destruct (head results ≫= result) as [[|tw tws0]|];
    cbn [snd trace]; by rewrite !navigations_app, !app_nil_r.
Qed.

(** "No active tab" comes from the first query alone. *)
Lemma find_tweets_no_active_tab count w0 :
  (find_tweets chrome count w0).1 = inl NoActiveTabFound
  ↔ ∃ t rest, answer_query chrome (trace w0 ++ [TabsQuery]) = inr (t :: rest)
            ∧ (tab_id t = None ∨ tab_id t = Some 0).
Proof.
  rewrite find_tweets_run.
  destruct (answer_query chrome _) as [m|tabs]; [split; [done|by intros (?&?&?&?)]|].
  destruct tabs as [|t rest]; cbn [head]; [split; [done|by intros (?&?&?&?)]|]. cbn zeta.
  destruct (tab_id t) as [id|] eqn:Hid.
  2:{ split; [|done]. intros _. exists t, rest. auto. }
  destruct (decide (id = 0)) as [->|Hne].
  { split; [|done]. intros _. exists t, rest. auto. }
  split.
  - destruct (answer_setCount chrome _) as [m|[]]; [done|].
    destruct (answer_collect chrome _) as [m|results]; [done|].
    by destruct (head results ≫= result) as [[|tw tws0]|].
  - intros (t' & rest' & [= <- <-] & [?|?]); congruence.
Qed.

(** "No tweets" comes from the collector's answer alone. *)
Lemma find_tweets_no_tweets count w0 :
  (find_tweets chrome count w0).1 = inl NoTweetsFound
  ↔ ∃ t id results,
      collect_answered chrome count w0 t id results
      ∧ (head results ≫= result = None ∨ head results ≫= result = Some []).
Proof.
  rewrite find_tweets_run. unfold collect_answered.
  destruct (answer_query chrome _) as [m|tabs].
  { split; [done|]. by intros (?&?&?&([? ?]&_)&_). }
  destruct tabs as [|t rest]; cbn [head].
  { split; [done|]. by intros (?&?&?&([? ?]&_)&_). }
  cbn zeta. destruct (tab_id t) as [id|] eqn:Hid.
  2:{ split; [done|]. intros (?&?&?&([? [= <- <-]]&?&_)&_). congruence. }
  destruct (decide (id = 0)) as [->|Hne].
  { split; [done|]. intros (?&?&?&([? [= <- <-]]&?&?&_)&_). congruence. }
  destruct (answer_setCount chrome _) as [m|[]] eqn:Hs.
  { split; [done|]. intros (?&?&?&([? [= <- <-]]&?&?&?&_)&_). congruence. }
  destruct (answer_collect chrome _) as [m|results] eqn:Hc.
  { split; [done|]. intros (?&?&?&([? [= <- <-]]&?&?&?&?)&_). congruence. }
  split.
  - intros Hr. exists t, id, results. split; [eauto 10|].
    destruct (head results ≫= result) as [[|tw tws0]|]; auto. done.
  - intros (t' & id' & results' & ([rest' [= <- <-]] & Hid' & _ & Hs' & Hc') & Hr).
    assert (id' = id) as -> by congruence.
    assert (results' = results) as -> by congruence.
    by destruct Hr as [->| ->].
Qed.

(** After the first steps succeeded, the [try] block ends as the
    restoration ends. *)
Lemma scrapeTweets_try_after_find count w0 id originalUrl tws w1 :
  find_tweets chrome count w0 = (inr (id, originalUrl, tws), w1) →
  ∃ tws' w2 r w3,
    comments_loop chrome tws w1 = (inr tws', w2)
    ∧ restore chrome id originalUrl w2 = (r, w3)
    ∧ (r = inr tt ∨ ∃ m, r = inl (Rejected m))
    ∧ scrapeTweets_try chrome count w0
      = match r with
        | inl e => (inl e, w3)
        | inr _ => finish tws' w3
        end.
Proof.
  intros Hfind. rewrite scrapeTweets_try_run, Hfind.
  destruct (comments_loop_spec tws w1) as (tws' & w2 & evs & Hloop & _).
  destruct (restore_run id originalUrl w2) as (r & Hres & Hr).
  exists tws', w2, r. eexists. rewrite Hloop, Hres.
  split; [done|]. split; [done|]. split; [done|]. by destruct r as [e|[]].
Qed.

(** *** A fetch that throws *)

(** Without a usable tab the [try] block of [scrapeComments] throws. *)
Lemma scrapeComments_try_no_tab url w :
  no_usable_tab (answer_query chrome
                   (trace w ++ [Console (LogScrapingComments url); TabsQuery])) →
  ∃ e, (scrapeComments_try chrome url w).1 = inl e
     ∧ navigations (trace (scrapeComments_try chrome url w).2) = navigations (trace w).
Proof.
  intros Hno. destruct (scrapeComments_try chrome url w) as [r w'] eqn:Hrun.
  cbn [fst snd]. revert Hrun.
  unfold scrapeComments_try. rewrite !bind_run. cbn [console emit].
  rewrite bind_run. unfold call at 1. cbn [trace ui].
  rewrite <- app_assoc. cbn [app].
  destruct (answer_query chrome _) as [m|tabs].
  { intros [= <- <-]. eexists. split; [reflexivity|]. cbn [trace].
    by rewrite navigations_app, app_nil_r. }
  cbn [fst snd]. rewrite bind_run. unfold checked_tab_id.
  destruct tabs as [|t rest]; cbn [head].
  { intros [= <- <-]. eexists. split; [reflexivity|]. cbn [trace].
    by rewrite navigations_app, app_nil_r. }
  cbn [no_usable_tab] in Hno. destruct Hno as [-> | ->].
  { intros [= <- <-]. eexists. split; [reflexivity|]. cbn [trace].
    by rewrite navigations_app, app_nil_r. }
  rewrite decide_True by done.
  intros [= <- <-]. eexists. split; [reflexivity|]. cbn [trace].
  by rewrite navigations_app, app_nil_r.
Qed.

(** The run around a fetch that throws at index [k]. *)
Lemma failed_fetch_isolated count w0 t id results tws k tk e :
  collect_answered chrome count w0 t id results →
  head results ≫= result = Some tws →
  tws !! k = Some tk → tweetUrl tk ≠ "" →
  (scrapeComments_try chrome (tweetUrl tk)
     (fetch_world chrome tws (world_at_loop w0 t id count results) k)).1 = inl e →
  ∃ before w_k tws' w2,
    loop_prefix chrome tws (world_at_loop w0 t id count results) k = (inr before, w_k)
    ∧ comments_loop chrome tws (world_at_loop w0 t id count results) = (inr tws', w2)
    ∧ length tws' = length tws
    ∧ tws' !! k = Some (set_comments tk [])
    ∧ take k tws' = take k before
    ∧ Forall2 same_but_comments tws tws'
    ∧ (∃ w_k', for_indices chrome (seq (S k) (length tws - S k))
                 (<[k := set_comments tk []]> before) w_k' = (inr tws', w2))
    ∧ (scrapeTweets_try chrome count w0).1 ≠ inl NoActiveTabFound
    ∧ ∀ w3, restore chrome id (tab_url t) w2 = (inr tt, w3) →
        ∃ w', scrapeTweets_try chrome count w0 = (inr tt, w')
            ∧ scrapedData (ui w') = Some {| tweets := tws' |}.
Proof.
  intros Hans Hres Hk Hurl Hthrow.
  destruct (comments_loop_split tws (world_at_loop w0 t id count results) k tk Hk)
    as (before & w_k & cs & w_k' & tws' & w2 & Hpre & Htake & _ & Hcs & Hrest & Hloop
        & Hitem & Hsame).
  rewrite (Hcs e Hthrow) in *.
  rewrite decide_False in Hrest by done. rewrite decide_False in Hitem by done.
  assert (tws ≠ []) as Hnil by (intros ->; done).
  pose proof (find_tweets_ok count w0 t id results tws Hans Hres Hnil) as Hfind.
  exists before, w_k, tws', w2.
  split; [done|]. split; [done|]. split; [symmetry; by eapply Forall2_length|].
  split; [done|]. split; [done|]. split; [done|]. split; [eauto|]. split.
  - rewrite scrapeTweets_try_run, Hfind, Hloop.
    destruct (restore_run id (tab_url t) w2) as (r & -> & [->|[m ->]]); [|done].
    match goal with |- context [finish tws' ?w] =>
      destruct (finish_run tws' w) as (w' & -> & _) end. done.
  - intros w3 Hrestore. rewrite scrapeTweets_try_run, Hfind, Hloop, Hrestore.
    destruct (finish_run tws' w3) as (w' & Hfin & Hdata & _). eauto.
Qed.

(** *** The whole of [scrapeTweets] *)

(** [scrapeTweets] itself never throws: what its [try] block throws is
    logged and shown as the error text; what it stored as scraped data
    stays. *)
Lemma scrapeTweets_reports w :
  ∃ w',
    scrapeTweets chrome w = (inr tt, w')
    ∧ isLoading (ui w') = false
    ∧ (∀ e, (scrapeTweets_try chrome (tweetCount (ui w)) (started w)).1 = inl e →
         error (ui w') = Some ("Error scraping tweets: " +:+ message e)
         ∧ trace w' = trace (scrapeTweets_try chrome (tweetCount (ui w)) (started w)).2
                      ++ [Console (ErrScraping e)])
    ∧ ((scrapeTweets_try chrome (tweetCount (ui w)) (started w)).1 = inr tt →
         scrapedData (ui w')
         = scrapedData (ui (scrapeTweets_try chrome (tweetCount (ui w)) (started w)).2)
         ∧ trace w' = trace (scrapeTweets_try chrome (tweetCount (ui w)) (started w)).2).
Proof.
  unfold scrapeTweets, try_catch_finally, try_catch, mbind, M_bind, bind.
  cbn [setIsLoading setError setProgress modify_ui ui trace].
  change (scrapeTweets_try chrome (tweetCount (ui w)) _)
    with (scrapeTweets_try chrome (tweetCount (ui w)) (started w)).
  destruct (scrapeTweets_try chrome (tweetCount (ui w)) (started w)) as [[e|[]] w1].
  - eexists. split; [reflexivity|]. split; [reflexivity|]. split; [|done].
    intros e' [= <-]. split; reflexivity.
  - eexists. split; [reflexivity|]. split; [reflexivity|]. split; [done|].
    intros _. split; reflexivity.
Qed.

End DriverFacts.

(** C6.  The loop never throws.  It returns an array of the same length in
    which every tweet is the tweet that was at that index with, at most,
    other comments, so nothing is permuted, inserted or removed and no other
    field changes.  [scrapeComments] is called once for each tweet with a
    non-empty URL, in index order, with that tweet's URL; when no URL is
    empty (as in every array the collector resolves with) the i-th call is
    for the URL of the i-th tweet of the result. *)
Theorem replies_attach_in_place (chrome : Chrome) (tws : list Tweet) (w : World) :
  ∃ tws' w' evs,
    comments_loop chrome tws w = (inr tws', w')
    ∧ trace w' = trace w ++ evs
    ∧ length tws' = length tws
    ∧ Forall2 same_but_comments tws tws'
    ∧ tweetUrl <$> tws' = tweetUrl <$> tws
    ∧ fetched_urls evs = filter (λ u, u ≠ "") (tweetUrl <$> tws')
    ∧ (Forall (λ t, tweetUrl t ≠ "") tws →
       ∀ i, fetched_urls evs !! i = tweetUrl <$> tws' !! i).
Proof.
  destruct (comments_loop_spec chrome tws w) as (tws' & w' & evs & Hrun & Htr & Hsame & Hf & _).
  assert (tweetUrl <$> tws' = tweetUrl <$> tws) as Hurls.
  { clear -Hsame. induction Hsame as [|t t' l l' Ht _ IH]; [done|].
    rewrite !fmap_cons, IH. f_equal. by apply same_but_comments_url. }
  exists tws', w', evs. split; [done|]. split; [done|].
  split; [symmetry; by eapply Forall2_length|]. split; [done|]. split; [done|].
  split; [by rewrite Hurls|].
  intros Hall i. rewrite Hf, <- list_lookup_fmap, Hurls.
  f_equal. clear -Hall. induction Hall as [|t l Ht _ IH]; [done|].
  rewrite fmap_cons, filter_cons, decide_True by done. by rewrite IH.
Qed.

Lemma replies_attach_in_place_witness :
  ∃ tws' w' evs,
    comments_loop healthy_chrome [tweet_a; tweet_b] idle = (inr tws', w')
    ∧ trace w' = trace idle ++ evs
    ∧ tweetUrl <$> tws' = ["/a/status/1"; "/b/status/2"]
    ∧ fetched_urls evs = ["/a/status/1"; "/b/status/2"]
    ∧ ∀ i, fetched_urls evs !! i = tweetUrl <$> tws' !! i.
Proof.
  destruct (replies_attach_in_place healthy_chrome [tweet_a; tweet_b] idle)
    as (tws' & w' & evs & Hrun & Htr & _ & _ & Hurls & Hf & Hith).
  exists tws', w', evs. split; [exact Hrun|]. split; [exact Htr|].
  split; [exact Hurls|]. split; [rewrite Hf, Hurls; vm_compute; reflexivity|].
  apply Hith. repeat constructor; discriminate.
Defined.

(** C8.  A run that fails with "no active tab" or "no tweets", or at any
    other of its first steps, has asked for no navigation at all.  When the
    first steps succeed, [originalUrl] is the [url] of the tab the first
    query returned, read before any navigation; the loop then runs to its
    end without throwing, and after it the run asks for exactly one more
    navigation, of the tab found at the start to [originalUrl], when that
    URL is present and non-empty, and for none otherwise. *)
Theorem restoration_after_loop (chrome : Chrome) (count : Z) (w0 : World) :
  ((scrapeTweets_try chrome count w0).1 = inl NoActiveTabFound
   ∨ (scrapeTweets_try chrome count w0).1 = inl NoTweetsFound →
   navigations (trace (scrapeTweets_try chrome count w0).2) = navigations (trace w0))
  ∧ (∀ e w1, find_tweets chrome count w0 = (inl e, w1) →
       scrapeTweets_try chrome count w0 = (inl e, w1)
       ∧ navigations (trace w1) = navigations (trace w0))
  ∧ (∀ id originalUrl tws w1,
       find_tweets chrome count w0 = (inr (id, originalUrl, tws), w1) →
       (∃ t rest, answer_query chrome (trace w0 ++ [TabsQuery]) = inr (t :: rest)
                ∧ tab_id t = Some id ∧ originalUrl = tab_url t)
       ∧ navigations (trace w1) = navigations (trace w0)
       ∧ ∃ tws' w2,
           comments_loop chrome tws w1 = (inr tws', w2)
           ∧ navigations (trace (scrapeTweets_try chrome count w0).2)
             = navigations (trace w2)
               ++ match originalUrl with
                  | Some u => if decide (u = "") then [] else [(id, u)]
                  | None => []
                  end).
Proof.
  assert (∀ e w1, find_tweets chrome count w0 = (inl e, w1) →
            scrapeTweets_try chrome count w0 = (inl e, w1)
            ∧ navigations (trace w1) = navigations (trace w0)) as Hfail.
  { intros e w1 Hfind. split; [by rewrite scrapeTweets_try_run, Hfind|].
    pose proof (find_tweets_no_navigation chrome count w0) as Hn. by rewrite Hfind in Hn. }
  split; [|split; [exact Hfail|]].
  - intros Hfatal.
    destruct (find_tweets chrome count w0) as [[e|[[id url] tws]] w1] eqn:Hfind.
    + destruct (Hfail e w1 eq_refl) as [-> Hn]. exact Hn.
    + destruct (scrapeTweets_try_after_find chrome count w0 id url tws w1 Hfind)
        as (tws' & w2 & r & w3 & _ & _ & Hr & Hrun).
      rewrite Hrun in Hfatal. destruct Hr as [->|[m ->]].
      * destruct (finish_run tws' w3) as (w' & Hfin & _). rewrite Hfin in Hfatal.
        by destruct Hfatal.
      * by destruct Hfatal.
  - intros id url tws w1 Hfind.
    destruct (find_tweets_ok_inv chrome count w0 id url tws w1 Hfind)
      as (t & results & ([rest Hq] & Hid & _) & Hurl & _).
    split; [exists t, rest; done|].
    split.
    { pose proof (find_tweets_no_navigation chrome count w0) as Hn. by rewrite Hfind in Hn. }
    destruct (scrapeTweets_try_after_find chrome count w0 id url tws w1 Hfind)
      as (tws' & w2 & r & w3 & Hloop & Hres & _ & Hrun).
    exists tws', w2. split; [exact Hloop|]. rewrite Hrun.
    destruct (restore_run chrome id url w2) as (r' & Hres' & _).
    rewrite Hres in Hres'. injection Hres' as <- ->.
    assert (navigations (trace w2 ++ match url with
                                     | Some u => if decide (u = "") then [] else [TabsUpdate id u]
                                     | None => []
                                     end)
            = navigations (trace w2) ++ match url with
                                        | Some u => if decide (u = "") then [] else [(id, u)]
                                        | None => []
                                        end) as Hnav.
    { rewrite navigations_app. f_equal. destruct url as [u|]; [|done]. by destruct (decide _). }
    destruct r as [e|[]]; cbn [snd trace]; [exact Hnav|].
    match goal with |- context [finish tws' ?w] =>
      destruct (finish_run tws' w) as (w' & Hfin & _ & Htr) end.
    rewrite Hfin. cbn [snd]. rewrite Htr, navigations_app. cbn [trace].
    rewrite Hnav. cbn. by rewrite app_nil_r.
Qed.

(** With [healthy_chrome] the run visits the two tweets and then goes back
    to the home page; with [blocked_chrome] it fails before navigating. *)
Lemma restoration_after_loop_witness :
  navigations (trace (scrapeTweets_try healthy_chrome 50 idle).2)
  = [(7, "https://twitter.com/a/status/1"); (7, "https://twitter.com/b/status/2");
     (7, "https://twitter.com/home")]
  ∧ navigations (trace (scrapeTweets_try blocked_chrome 50 idle).2) = [].
Proof.
  destruct (restoration_after_loop healthy_chrome 50 idle) as (_ & _ & Hok).
  destruct (restoration_after_loop blocked_chrome 50 idle) as (_ & Hfail & _).
  split.
  - destruct (find_tweets healthy_chrome 50 idle) as [[e|[[id url] tws]] w1] eqn:Hfind;
      [vm_compute in Hfind; discriminate|].
    destruct (Hok id url tws w1 eq_refl) as (_ & _ & tws' & w2 & Hloop & ->).
    vm_compute in Hfind. injection Hfind as <- <- <- <-.
    vm_compute in Hloop. injection Hloop as <- <-. vm_compute. reflexivity.
  - destruct (find_tweets blocked_chrome 50 idle) as [[e|[[id url] tws]] w1] eqn:Hfind;
      [|vm_compute in Hfind; discriminate].
    destruct (Hfail e w1 eq_refl) as [Hrun Hn]. rewrite Hrun. cbn [snd]. rewrite Hn.
    reflexivity.
Defined.

(** C3, as the code has it.  The run fails with "no active tab" whenever
    the first query resolves with a first tab whose id is missing or 0, and
    only at that first step, on a first query that resolved with no first tab
    that has an id.  It fails with "no tweets" exactly when the first query
    and both injections succeed and the collector's result is missing or
    empty.  In both cases no navigation has been asked for.  Any error of the
    first steps, a rejected query or injection included, ends the run with
    that error as well.  When the first steps succeed with a non-empty
    array, the loop runs to its end whatever the fetches do, changing nothing
    but comments, and the run resolves with that array as its scraped data
    once the restoration has not thrown. *)
Theorem run_outcomes (chrome : Chrome) (count : Z) (w0 : World) :
  ((∃ t rest, answer_query chrome (trace w0 ++ [TabsQuery]) = inr (t :: rest)
            ∧ (tab_id t = None ∨ tab_id t = Some 0)) →
   (scrapeTweets_try chrome count w0).1 = inl NoActiveTabFound)
  ∧ ((scrapeTweets_try chrome count w0).1 = inl NoActiveTabFound →
     ∃ tabs, answer_query chrome (trace w0 ++ [TabsQuery]) = inr tabs
           ∧ ∀ t, head tabs = Some t → tab_id t = None ∨ tab_id t = Some 0)
  ∧ ((scrapeTweets_try chrome count w0).1 = inl NoTweetsFound
     ↔ ∃ t id results,
         collect_answered chrome count w0 t id results
         ∧ (head results ≫= result = None ∨ head results ≫= result = Some []))
  ∧ ((scrapeTweets_try chrome count w0).1 = inl NoActiveTabFound
     ∨ (scrapeTweets_try chrome count w0).1 = inl NoTweetsFound →
     navigations (trace (scrapeTweets_try chrome count w0).2) = navigations (trace w0))
  ∧ (∀ e, (find_tweets chrome count w0).1 = inl e →
          (scrapeTweets_try chrome count w0).1 = inl e)
  ∧ (∀ t id results tws,
       collect_answered chrome count w0 t id results →
       head results ≫= result = Some tws → tws ≠ [] →
       ∃ tws' w2,
         comments_loop chrome tws (world_at_loop w0 t id count results) = (inr tws', w2)
         ∧ Forall2 same_but_comments tws tws'
         ∧ ∀ w3, restore chrome id (tab_url t) w2 = (inr tt, w3) →
             (scrapeTweets_try chrome count w0).1 = inr tt
             ∧ scrapedData (ui (scrapeTweets_try chrome count w0).2)
               = Some {| tweets := tws' |}).
Proof.
  assert (∀ e, (scrapeTweets_try chrome count w0).1 = inl e →
               (e = NoActiveTabFound ∨ e = NoTweetsFound) →
               (find_tweets chrome count w0).1 = inl e) as Hback.
  { intros e Hrun He.
    destruct (find_tweets chrome count w0) as [[e'|[[id url] tws]] w1] eqn:Hfind.
    - rewrite scrapeTweets_try_run, Hfind in Hrun. cbn [fst] in *. by injection Hrun as ->.
    - destruct (scrapeTweets_try_after_find chrome count w0 id url tws w1 Hfind)
        as (tws' & w2 & r & w3 & _ & _ & Hr & Hrun').
      rewrite Hrun' in Hrun. destruct Hr as [->|[m ->]].
      + destruct (finish_run tws' w3) as (w' & Hfin & _). by rewrite Hfin in Hrun.
      + cbn in Hrun. injection Hrun as <-. by destruct He. }
  assert (∀ e, (find_tweets chrome count w0).1 = inl e →
               (scrapeTweets_try chrome count w0).1 = inl e) as Hfwd.
  { intros e Hfind. rewrite scrapeTweets_try_run.
    destruct (find_tweets chrome count w0) as [[e'|[[id url] tws]] w1]; [|done].
    cbn [fst] in *. by injection Hfind as ->. }
  split; [|split; [|split; [|split; [|split; [exact Hfwd|]]]]].
  - intros H. by apply Hfwd, find_tweets_no_active_tab.
  - intros H. apply Hback in H; [|auto].
    apply find_tweets_no_active_tab in H as (t & rest & Hq & Hid).
    exists (t :: rest). split; [done|]. by intros t' [= <-].
  - rewrite <- find_tweets_no_tweets. split; [intros H; apply Hback; auto|apply Hfwd].
  - intros Hfatal.
    assert (∃ e, (find_tweets chrome count w0).1 = inl e) as [e He].
    { destruct Hfatal as [H|H]; eexists; apply (Hback _ H); auto. }
    rewrite scrapeTweets_try_run.
    pose proof (find_tweets_no_navigation chrome count w0) as Hn.
    destruct (find_tweets chrome count w0) as [[e'|[[id url] tws]] w1]; done.
  - intros t id results tws Hans Hres Hnil.
    pose proof (find_tweets_ok chrome count w0 t id results tws Hans Hres Hnil) as Hfind.
    destruct (comments_loop_spec chrome tws (world_at_loop w0 t id count results))
      as (tws' & w2 & evs & Hloop & _ & Hsame & _).
    exists tws', w2. split; [done|]. split; [done|].
    intros w3 Hrestore. rewrite scrapeTweets_try_run, Hfind, Hloop, Hrestore.
    destruct (finish_run tws' w3) as (w' & -> & Hdata & _). done.
Qed.

(** With [healthy_chrome] the run resolves with the two tweets. *)
Lemma run_outcomes_witness :
  (scrapeTweets_try healthy_chrome 50 idle).1 = inr tt
  ∧ ∃ tws', scrapedData (ui (scrapeTweets_try healthy_chrome 50 idle).2)
            = Some {| tweets := tws' |}
          ∧ Forall2 same_but_comments [tweet_a; tweet_b] tws'.
Proof.
  destruct (run_outcomes healthy_chrome 50 idle) as (_ & _ & _ & _ & _ & Hok).
  destruct (Hok home_tab 7 [mkInjectionResult (Some [tweet_a; tweet_b])] [tweet_a; tweet_b])
    as (tws' & w2 & _ & Hsame & Hres).
  - split; [by exists []|]. repeat split. lia.
  - reflexivity.
  - discriminate.
  - destruct (Hres {| ui := ui w2;
                      trace := trace w2 ++ [TabsUpdate 7 "https://twitter.com/home"] |})
      as [Hrun Hdata]; [reflexivity|].
    split; [exact Hrun|]. exists tws'. split; [exact Hdata|exact Hsame].
Defined.

(** C3 as the specification words it does not hold: with [blocked_chrome]
    the tab is there and the injection is rejected; the run fails, with
    neither of the two named errors. *)
Lemma run_outcomes_counterexample :
  (scrapeTweets_try blocked_chrome 50 idle).1
    = inl (Rejected "Cannot access contents of the page")
  ∧ ¬ run_outcomes_as_stated.
Proof.
  split; [vm_compute; reflexivity|].
  intros Hclaim. specialize (Hclaim blocked_chrome 50 idle).
  vm_compute in Hclaim. destruct Hclaim as [H|[H|[H _]]]; discriminate H.
Qed.

(** C4, as the code has it.  When the [try] block of [scrapeComments]
    throws for the tweet at index [k], the loop still runs to its end: the
    array keeps its length, the tweet at [k] is kept with an empty list of
    comments, the tweets before [k] are as they were when that fetch began,
    the iterations after [k] go on from the array with that empty list, and
    no tweet differs from the collected one in anything but its comments.
    The run then resolves with that array once the restoration has not
    thrown. *)
Theorem fetch_failure_is_isolated (chrome : Chrome) (count : Z) (w0 : World)
    (t : Tab) (id : Z) (results : list (InjectionResult (list Tweet)))
    (tws : list Tweet) (k : nat) (tk : Tweet) (e : Exn) :
  collect_answered chrome count w0 t id results →
  head results ≫= result = Some tws →
  tws !! k = Some tk → tweetUrl tk ≠ "" →
  (scrapeComments_try chrome (tweetUrl tk)
     (fetch_world chrome tws (world_at_loop w0 t id count results) k)).1 = inl e →
  ∃ before w_k tws' w2,
    loop_prefix chrome tws (world_at_loop w0 t id count results) k = (inr before, w_k)
    ∧ comments_loop chrome tws (world_at_loop w0 t id count results) = (inr tws', w2)
    ∧ length tws' = length tws
    ∧ tws' !! k = Some (set_comments tk [])
    ∧ take k tws' = take k before
    ∧ Forall2 same_but_comments tws tws'
    ∧ (∃ w_k', for_indices chrome (seq (S k) (length tws - S k))
                 (<[k := set_comments tk []]> before) w_k' = (inr tws', w2))
    ∧ ∀ w3, restore chrome id (tab_url t) w2 = (inr tt, w3) →
        ∃ w', scrapeTweets_try chrome count w0 = (inr tt, w')
            ∧ scrapedData (ui w') = Some {| tweets := tws' |}.
Proof.
  intros Hans Hres Hk Hurl Hthrow.
  destruct (failed_fetch_isolated chrome count w0 t id results tws k tk e
              Hans Hres Hk Hurl Hthrow)
    as (before & w_k & tws' & w2 & ? & ? & ? & ? & ? & ? & ? & _ & ?).
  exists before, w_k, tws', w2. done.
Qed.

Lemma last_navigation_snoc tr id u : last_navigation (tr ++ [TabsUpdate id u]) = Some u.
Proof. unfold last_navigation. by rewrite last_snoc. Qed.

(** With [flaky_chrome] the page of the first tweet fails to load; the run
    resolves with both tweets, the first one without comments. *)
Lemma fetch_failure_is_isolated_witness :
  ∃ tws' w',
    scrapeTweets_try flaky_chrome 50 idle = (inr tt, w')
    ∧ scrapedData (ui w') = Some {| tweets := tws' |}
    ∧ length tws' = 2%nat
    ∧ tws' !! 0%nat = Some (set_comments tweet_a []).
Proof.
  destruct (fetch_failure_is_isolated flaky_chrome 50 idle home_tab 7
              [mkInjectionResult (Some [tweet_a; tweet_b])] [tweet_a; tweet_b]
              0 tweet_a (Rejected "net::ERR_ABORTED"))
    as (before & w_k & tws' & w2 & _ & _ & Hlen & Hitem & _ & _ & _ & Hres).
  - split; [by exists []|]. repeat split. lia.
  - reflexivity.
  - reflexivity.
  - discriminate.
  - vm_compute. reflexivity.
  - destruct (Hres {| ui := ui w2;
                      trace := trace w2 ++ [TabsUpdate 7 "https://twitter.com/home"] |})
      as (w' & Hrun & Hdata).
    { unfold restore, call. cbn [tab_url home_tab trace ui flaky_chrome answer_update].
      rewrite decide_False by discriminate. rewrite last_navigation_snoc.
      rewrite decide_False by discriminate. reflexivity. }
    exists tws', w'. split; [exact Hrun|]. split; [exact Hdata|]. split; [exact Hlen|exact Hitem].
Defined.

(** C4 as the specification words it does not hold: with [stuck_chrome]
    the fetch for the first tweet throws (the navigation is refused), the loop
    goes on, and the restoration, refused as well, makes the run fail. *)
Lemma fault_isolation_counterexample :
  (scrapeComments_try stuck_chrome (tweetUrl tweet_a)
     (fetch_world stuck_chrome [tweet_a; tweet_b]
        (world_at_loop idle home_tab 7 50 [mkInjectionResult (Some [tweet_a; tweet_b])])
        0)).1 = inl (Rejected "No tab with id: 7")
  ∧ (scrapeTweets_try stuck_chrome 50 idle).1 = inl (Rejected "No tab with id: 7")
  ∧ ¬ fault_isolation_as_stated.
Proof.
  split; [vm_compute; reflexivity|]. split; [vm_compute; reflexivity|].
  intros Hclaim.
  destruct (Hclaim stuck_chrome 50 idle home_tab 7
              [mkInjectionResult (Some [tweet_a; tweet_b])] [tweet_a; tweet_b]
              0%nat tweet_a (Rejected "No tab with id: 7"))
    as (tws' & w' & Hrun & _).
  - split; [by exists []|]. repeat split. lia.
  - reflexivity.
  - reflexivity.
  - discriminate.
  - vm_compute. reflexivity.
  - vm_compute in Hrun. discriminate Hrun.
Qed.

(** C10, as the code has it.  When the first steps succeeded and the query
    inside the fetch for index [k] finds no usable tab (it rejects, or
    returns no tab, or a tab whose id is missing or 0), the error is raised
    inside the [try] block of [scrapeComments], before any navigation; the
    run does not fail with "no active tab"; the loop runs to its end with
    every tweet, the one at [k] without comments; and the run resolves with
    that array once the restoration, which reuses the id found at the start,
    has not thrown. *)
Theorem lost_tab_during_loop (chrome : Chrome) (count : Z) (w0 : World)
    (t : Tab) (id : Z) (results : list (InjectionResult (list Tweet)))
    (tws : list Tweet) (k : nat) (tk : Tweet) :
  collect_answered chrome count w0 t id results →
  head results ≫= result = Some tws →
  tws !! k = Some tk → tweetUrl tk ≠ "" →
  no_usable_tab (answer_query chrome
    (trace_at_fetch_query chrome tws (world_at_loop w0 t id count results) k (tweetUrl tk))) →
  (scrapeTweets_try chrome count w0).1 ≠ inl NoActiveTabFound
  ∧ (∃ e, (scrapeComments_try chrome (tweetUrl tk)
             (fetch_world chrome tws (world_at_loop w0 t id count results) k)).1 = inl e
        ∧ navigations (trace (scrapeComments_try chrome (tweetUrl tk)
             (fetch_world chrome tws (world_at_loop w0 t id count results) k)).2)
          = navigations (trace (fetch_world chrome tws
                                  (world_at_loop w0 t id count results) k)))
  ∧ ∃ tws' w2,
      comments_loop chrome tws (world_at_loop w0 t id count results) = (inr tws', w2)
      ∧ length tws' = length tws
      ∧ tws' !! k = Some (set_comments tk [])
      ∧ Forall2 same_but_comments tws tws'
      ∧ ∀ w3, restore chrome id (tab_url t) w2 = (inr tt, w3) →
          ∃ w', scrapeTweets_try chrome count w0 = (inr tt, w')
              ∧ scrapedData (ui w') = Some {| tweets := tws' |}.
Proof.
  intros Hans Hres Hk Hurl Hno.
  destruct (scrapeComments_try_no_tab chrome (tweetUrl tk) _ Hno) as (e & Hthrow & Hnav).
  destruct (failed_fetch_isolated chrome count w0 t id results tws k tk e
              Hans Hres Hk Hurl Hthrow)
    as (before & w_k & tws' & w2 & _ & ? & ? & ? & _ & ? & _ & ? & ?).
  split; [done|]. split; [eauto|]. exists tws', w2. done.
Qed.

(** With [detached_chrome] the active tab has no id during the loop, while
    the tab of the start can still be navigated: the run resolves with both
    tweets, without comments. *)
Lemma lost_tab_during_loop_witness :
  (scrapeTweets_try detached_chrome 50 idle).1 ≠ inl NoActiveTabFound
  ∧ ∃ tws' w',
      scrapeTweets_try detached_chrome 50 idle = (inr tt, w')
      ∧ scrapedData (ui w') = Some {| tweets := tws' |}
      ∧ length tws' = 2%nat
      ∧ tws' !! 1%nat = Some (set_comments tweet_b []).
Proof.
  destruct (lost_tab_during_loop detached_chrome 50 idle home_tab 7
              [mkInjectionResult (Some [tweet_a; tweet_b])] [tweet_a; tweet_b]
              1 tweet_b)
    as (Hnot & _ & tws' & w2 & _ & Hlen & Hitem & _ & Hres).
  - split; [by exists []|]. repeat split. lia.
  - reflexivity.
  - reflexivity.
  - discriminate.
  - vm_compute. by left.
  - split; [exact Hnot|].
    destruct (Hres {| ui := ui w2;
                      trace := trace w2 ++ [TabsUpdate 7 "https://twitter.com/home"] |})
      as (w' & Hrun & Hdata); [reflexivity|].
    exists tws', w'. split; [exact Hrun|]. split; [exact Hdata|]. split; [exact Hlen|exact Hitem].
Defined.

(** C10 as written does not hold: with [closed_chrome] the tab is closed
    once the tweets are collected; the fetch finds no tab and yields no
    comments, but the restoration is refused and the run fails. *)
Lemma lost_tab_counterexample :
  answer_query closed_chrome
    (trace_at_fetch_query closed_chrome [tweet_a]
       (world_at_loop idle home_tab 7 50 [mkInjectionResult (Some [tweet_a])])
       0 (tweetUrl tweet_a)) = inr []
  ∧ (scrapeTweets_try closed_chrome 50 idle).1 = inl (Rejected "No tab with id: 7")
  ∧ ¬ lost_tab_as_stated.
Proof.
  split; [vm_compute; reflexivity|]. split; [vm_compute; reflexivity|].
  intros Hclaim.
  destruct (Hclaim closed_chrome 50 idle home_tab 7
              [mkInjectionResult (Some [tweet_a])] [tweet_a] 0%nat tweet_a)
    as (tws' & w' & Hrun & _).
  - split; [by exists []|]. repeat split. lia.
  - reflexivity.
  - reflexivity.
  - discriminate.
  - vm_compute. exact I.
  - vm_compute in Hrun. discriminate Hrun.
Qed.

(** ** The export *)

Lemma comment_json_reply c : comment_json c = reply_record source_keys c.
Proof. reflexivity. Qed.

Lemma tweet_json_item t : tweet_json t = item_record source_keys t.
Proof. reflexivity. Qed.

(** C9, as the code has it.  The record built for the clipboard has four
    members, in this order: the number of tweets, the search term, the time
    of the export and the array of tweets.  The first and the last are the two
    members of the specification's nested record, under the source's names
    for its keys ([totalTweets], [tweets], [retweets], [commentCount],
    [comments], and [replies] for a comment's reply count); [searchItem] and
    [scrapeTimestamp] come on top.  Nothing is exported without scraped
    data. *)
Theorem export_record (now : string) (s : AppState) :
  copyJsonToClipboard now s = formattedData now (searchTerm s) <$> scrapedData s
  ∧ ∀ term d,
      harvest_record source_keys d
        = JObj [("totalTweets", JNum (Z.of_nat (length (tweets d))));
                ("tweets", JArr (item_record source_keys <$> tweets d))]
      ∧ formattedData now term d
        = JObj [("totalTweets", JNum (Z.of_nat (length (tweets d))));
                ("searchItem", JStr term);
                ("scrapeTimestamp", JStr now);
                ("tweets", JArr (item_record source_keys <$> tweets d))].
Proof.
  split; [reflexivity|]. intros term d. split; [reflexivity|].
  unfold formattedData. repeat f_equal.
Qed.

(** C9 as the specification words it does not hold: for an empty result
    the exported record has four members, the specification's two, whatever
    the keys are called. *)
Lemma export_shape_counterexample :
  formattedData "2024-01-01T00:00:00.000Z" "rocq" {| tweets := [] |}
    = JObj [("totalTweets", JNum 0); ("searchItem", JStr "rocq");
            ("scrapeTimestamp", JStr "2024-01-01T00:00:00.000Z"); ("tweets", JArr [])]
  ∧ ¬ export_shape_as_stated.
Proof.
  split; [reflexivity|].
  intros Hclaim. destruct (Hclaim "2024-01-01T00:00:00.000Z" "rocq" {| tweets := [] |}) as [K HK].
  unfold formattedData, harvest_record in HK. discriminate HK.
Qed.

(** * Further properties *)

(** ** Field extraction *)

Lemma split_space_0_no_space s : has_space (split_space_0 s) = false.
Proof.
  induction s as [|c s IH]; [done|]. cbn [split_space_0].
  destruct (Ascii.eqb c " ") eqn:Hc; [done|]. cbn [has_space]. by rewrite Hc, IH.
Qed.

Lemma split_space_0_id s : has_space s = false → split_space_0 s = s.
Proof.
  induction s as [|c s IH]; [done|]. cbn [has_space split_space_0].
  destruct (Ascii.eqb c " "); [done|]. cbn [orb]. intros Hs. by rewrite IH.
Qed.

(** X10.  [s.split(' ')[0]] is the part of [s] before its first space:
    it has no space, what follows it in [s] is nothing or begins with a
    space, and for a word [a] without a space, the first piece of
    [a + ' ' + b] is [a], and of [a] alone is [a]. *)
Theorem split_space_0_first_word (s a b : string) :
  has_space (split_space_0 s) = false
  ∧ (∃ rest, s = split_space_0 s +:+ rest ∧ (rest = "" ∨ ∃ r, rest = String " " r))
  ∧ (has_space a = false → split_space_0 (a +:+ String " " b) = a)
  ∧ (has_space s = false → split_space_0 s = s).
Proof.
  split; [apply split_space_0_no_space|]. split; [|split; [|apply split_space_0_id]].
  - induction s as [|c s (rest & Hs & Hrest)]; [exists ""; auto|].
    cbn [split_space_0]. destruct (Ascii.eqb c " ") eqn:Hc.
    + apply Ascii.eqb_eq in Hc as ->. exists (String " " s). split; [done|eauto].
    + exists rest. split; [|done].
      change (String c (split_space_0 s) +:+ rest) with (String c (split_space_0 s +:+ rest)).
      f_equal. exact Hs.
  - induction a as [|c a IH]; [done|]. cbn [has_space].
    destruct (Ascii.eqb c " ") eqn:Hc; [done|]. cbn [orb]. intros Ha.
    change (String c a +:+ String " " b) with (String c (a +:+ String " " b)).
    cbn [split_space_0]. rewrite Hc. f_equal. by apply IH.
Qed.

Lemma split_space_0_first_word_witness :
  split_space_0 ("1,234" +:+ String " " "Likes. Like") = "1,234".
Proof.
  destruct (split_space_0_first_word "1,234 Likes. Like" "1,234" "Likes. Like")
    as (_ & _ & Hword & _).
  apply Hword. reflexivity.
Defined.

Lemma count_of_nonempty el : count_of el ≠ "" ∧ has_space (count_of el) = false.
Proof.
  unfold count_of. destruct el as [e|]; [|done].
  destruct (getAttribute e "aria-label") as [label|]; [|done].
  cbn [fmap option_fmap option_map opt_or_else]. unfold or_else.
  destruct (decide (split_space_0 label = "")); [done|].
  split; [done|apply split_space_0_no_space].
Qed.

(** X9.  A count read from an [aria-label] ([likes], [retweets], a
    comment's [likes] and [replies]) is never empty and has no space.  It
    is the first word of the label, and it is "0" when the element is
    missing, when it has no [aria-label], and when the label is empty or
    begins with a space. *)
Theorem count_of_first_word_or_zero (el : option Element) :
  count_of el ≠ ""
  ∧ has_space (count_of el) = false
  ∧ (el = None → count_of el = "0")
  ∧ (∀ e, el = Some e → getAttribute e "aria-label" = None → count_of el = "0")
  ∧ (∀ e label, el = Some e → getAttribute e "aria-label" = Some label →
       count_of el = if decide (split_space_0 label = "") then "0" else split_space_0 label)
  ∧ (∀ e label, el = Some e → getAttribute e "aria-label" = Some label →
       (split_space_0 label = "" ↔ label = "" ∨ ∃ r, label = String " " r)).
Proof.
  split; [apply count_of_nonempty|]. split; [apply count_of_nonempty|].
  split; [by intros ->|]. split; [|split].
  - intros e -> He. unfold count_of. by rewrite He.
  - intros e label -> He. unfold count_of. by rewrite He.
  - intros e label _ _. destruct label as [|c label]; [naive_solver|].
    cbn [split_space_0]. destruct (Ascii.eqb c " ") eqn:Hc.
    + apply Ascii.eqb_eq in Hc as ->. naive_solver.
    + split; [done|]. intros [?|[r [= -> _]]]; [done|]. by rewrite Ascii.eqb_refl in Hc.
Qed.

Lemma count_of_first_word_or_zero_witness :
  count_of (Some {| textContent := ""; attributes := {[ "aria-label" := "12 Likes. Like" ]} |})
  = "12".
Proof.
  destruct (count_of_first_word_or_zero
              (Some {| textContent := ""; attributes := {[ "aria-label" := "12 Likes. Like" ]} |}))
    as (_ & _ & _ & _ & Hlabel & _).
  rewrite (Hlabel _ "12 Likes. Like" eq_refl); [|reflexivity].
  reflexivity.
Defined.

(** ** More on the collector *)

Section CollectorMore.

Implicit Types (acc : gset string * list Tweet) (cs : list Cell).

Lemma accepted_url_nonempty c u : accepted_url c = Some u → u ≠ "".
Proof.
  unfold accepted_url. destruct (cell_url c) as [v|]; [|done].
  destruct (decide (v = "")); [done|]. by intros [= <-].
Qed.

Lemma built_from_first_node_app cs more t :
  built_from_first_node cs t → built_from_first_node (cs ++ more) t.
Proof.
  intros (cs1 & c & cs2 & -> & ? & ? & ?). exists cs1, c, (cs2 ++ more).
  by rewrite <- app_assoc.
Qed.

(** The scan keeps, for every tweet of the array, the node it was built
    from as the first node with its URL. *)
Lemma scan_first_node cs prefix seen tws :
  (∀ u, u ∈ seen ↔ ∃ c, c ∈ prefix ∧ accepted_url c = Some u) →
  Forall (built_from_first_node prefix) tws →
  (∀ u, u ∈ (forEach_cells cs (seen, tws)).1
        ↔ ∃ c, c ∈ prefix ++ cs ∧ accepted_url c = Some u)
  ∧ Forall (built_from_first_node (prefix ++ cs)) (forEach_cells cs (seen, tws)).2.
Proof.
  revert prefix seen tws. induction cs as [|c cs IH]; intros prefix seen tws Hseen Hbuilt.
  - rewrite app_nil_r. done.
  - rewrite forEach_cells_cons, forEach_body_accepted. cbn [fst snd].
    replace (prefix ++ c :: cs) with ((prefix ++ [c]) ++ cs) by by rewrite <- app_assoc.
    destruct (accepted_url c) as [u|] eqn:Hc.
    + destruct (decide (u ∈ seen)) as [Hin|Hin].
      * apply IH.
        -- intros v. rewrite Hseen. split.
           ++ intros (c' & ? & ?). exists c'. split; [apply elem_of_app; by left|done].
           ++ intros (c' & Hin' & Hv). apply elem_of_app in Hin' as [?|Hin']; [eauto|].
              apply list_elem_of_singleton in Hin' as ->.
              rewrite Hc in Hv. injection Hv as <-. by apply Hseen.
        -- eapply Forall_impl; [exact Hbuilt|]. intros t. apply built_from_first_node_app.
      * apply IH.
        -- intros v. rewrite elem_of_union, elem_of_singleton, Hseen. split.
           ++ intros [->|(c' & ? & ?)].
              ** exists c. split; [apply elem_of_app; right; by left|done].
              ** exists c'. split; [apply elem_of_app; by left|done].
           ++ intros (c' & Hin' & Hv). apply elem_of_app in Hin' as [?|Hin']; [eauto|].
              apply list_elem_of_singleton in Hin' as ->.
              rewrite Hc in Hv. injection Hv as <-. by left.
        -- apply Forall_app. split.
           ++ eapply Forall_impl; [exact Hbuilt|]. intros t. apply built_from_first_node_app.
           ++ apply Forall_singleton. exists prefix, c, []. split; [done|].
              split; [done|]. split; [done|].
              intros c' Hc' Hacc. apply Hin, Hseen. eauto.
    + apply IH.
      * intros v. rewrite Hseen. split.
        -- intros (c' & ? & ?). exists c'. split; [apply elem_of_app; by left|done].
        -- intros (c' & Hin' & Hv). apply elem_of_app in Hin' as [?|Hin']; [eauto|].
           apply list_elem_of_singleton in Hin' as ->. congruence.
      * eapply Forall_impl; [exact Hbuilt|]. intros t. apply built_from_first_node_app.
Qed.

Lemma state_after_first_node target page k :
  Forall (built_from_first_node (scanned page k)) (collected (state_after target page k)).
Proof.
  pose proof (state_after_scan target page k) as Hs.
  destruct (scan_first_node (scanned page k) [] ∅ []) as [_ Hb].
  - intros u. split; [set_solver|]. by intros (c & ?%elem_of_nil & _).
  - constructor.
  - rewrite <- Hs in Hb. exact Hb.
Qed.

(** A scan of nodes whose URLs have all been processed changes nothing. *)
Lemma forEach_cells_absorbed cs acc :
  (∀ c u, c ∈ cs → accepted_url c = Some u → u ∈ acc.1) →
  forEach_cells cs acc = acc.
Proof.
  induction cs as [|c cs IH]; intros Hall; [done|].
  rewrite forEach_cells_cons, forEach_body_accepted.
  destruct (accepted_url c) as [u|] eqn:Hc.
  - rewrite decide_True by (apply (Hall c); [left|done]).
    apply IH. intros c' v Hc'. apply Hall. by right.
  - apply IH. intros c' v Hc'. apply Hall. by right.
Qed.

(** What stopped a resolved run, and that nothing stopped it earlier. *)
Lemma resolved_stop_cause fuel target page st :
  scrollAndCollect_state fuel target page = Some st →
  (1 ≤ scrollAttempts st ≤ maxScrollAttempts)%nat
  ∧ collected st = collected (state_after target page (scrollAttempts st))
  ∧ previousHeight st = height_before page (scrollAttempts st - 1)
  ∧ (scrollHeight (page (scrollAttempts st - 1)%nat)
       = height_before page (scrollAttempts st - 1)
     ∨ target ≤ Z.of_nat (length (collected st))
     ∨ scrollAttempts st = maxScrollAttempts)
  ∧ ∀ i, (S i < scrollAttempts st)%nat →
      scrollHeight (page i) ≠ height_before page i
      ∧ Z.of_nat (length (collected (state_after target page (S i)))) < target.
Proof.
  intros Hrun. unfold scrollAndCollect_state in Hrun.
  change scroll_init with (state_after target page 0) in Hrun.
  destruct (run_interval_state_after _ _ _ _ _ Hrun)
    as (k & Hk & Hat & _ & Hcol & Htrue & Hst & Hfalse).
  rewrite Hat.
  assert (∀ j, (j ≤ k - 1)%nat →
            previousHeight (state_after target page j) = height_before page j) as Hprev.
  { induction j as [|j IHj]; intros Hj; [done|].
    cbn [state_after height_before]. rewrite interval_callback_height.
    rewrite Hfalse by lia. done. }
  assert (∀ i, (S i < k)%nat →
            scrollHeight (page i) ≠ height_before page i
            ∧ Z.of_nat (length (collected (state_after target page (S i)))) < target
            ∧ (S i < maxScrollAttempts)%nat) as Hearlier.
  { intros i Hi. specialize (Hfalse i ltac:(lia)).
    rewrite interval_callback_resolved, state_after_attempts in Hfalse.
    unfold stop_test in Hfalse.
    apply orb_false_iff in Hfalse as [[Hh Ht]%orb_false_iff Hc].
    rewrite Hprev in Hh by lia.
    apply Z.eqb_neq in Hh. apply Z.leb_gt in Ht. apply Nat.leb_gt in Hc. done. }
  assert (k ≤ maxScrollAttempts)%nat as Hle.
  { destruct (decide (k ≤ 1)%nat); [unfold maxScrollAttempts; lia|].
    destruct (Hearlier (k - 2)%nat) as (_ & _ & ?); lia. }
  split; [lia|]. split; [done|]. split; [|split].
  - rewrite Hst, interval_callback_height, Htrue. apply Hprev. lia.
  - rewrite interval_callback_resolved, state_after_attempts in Htrue.
    replace (S (k - 1)) with k in Htrue by lia.
    change ((interval_callback target (page (k - 1)%nat) (state_after target page (k - 1))).1)
      with (state_after target page (S (k - 1))) in Htrue.
    replace (S (k - 1)) with k in Htrue by lia.
    rewrite <- Hcol in Htrue. unfold stop_test in Htrue.
    apply orb_true_iff in Htrue as [[Hh|Ht]%orb_true_iff|Hc].
    + left. apply Z.eqb_eq in Hh. by rewrite Hprev in Hh by lia.
    + right; left. by apply Z.leb_le.
    + right; right. apply Nat.leb_le in Hc. lia.
  - intros i Hi. destruct (Hearlier i Hi) as (? & ? & _). done.
Qed.

End CollectorMore.

(** X1.  Every tweet the collector resolves with has a non-empty URL and
    an empty list of comments: a node without a usable link never gets in,
    and the collector attaches no comment. *)
Theorem collected_have_url_and_no_comments fuel target page st :
  scrollAndCollect_state fuel target page = Some st →
  Forall (λ t, tweetUrl t ≠ "" ∧ comments t = []) (collected st).
Proof.
  intros Hrun. destruct (resolved_state _ _ _ _ Hrun) as (k & _ & _ & _ & ->).
  eapply Forall_impl; [apply state_after_first_node|].
  intros t (cs1 & c & cs2 & _ & Hacc & -> & _). split; [|done].
  by eapply accepted_url_nonempty.
Qed.

Lemma collected_have_url_and_no_comments_witness :
  ∃ st, scrollAndCollect_state 50 50 dup_page = Some st
      ∧ Forall (λ t, tweetUrl t ≠ "" ∧ comments t = []) (collected st).
Proof.
  destruct (scrollAndCollect_state 50 50 dup_page) as [st|] eqn:Hrun;
    [|vm_compute in Hrun; discriminate].
  exists st. split; [reflexivity|].
  exact (collected_have_url_and_no_comments 50 50 dup_page st Hrun).
Defined.

(** X2.  Every tweet of the resolved array was built from the first node,
    in scan order over all the ticks run, that carries its URL: its fields
    are read from that node, and no later node with the same URL changes
    them. *)
Theorem collected_built_from_first_node fuel target page st :
  scrollAndCollect_state fuel target page = Some st →
  Forall (built_from_first_node (scanned page (scrollAttempts st))) (collected st).
Proof.
  intros Hrun. destruct (resolved_state _ _ _ _ Hrun) as (k & _ & -> & _ & ->).
  apply state_after_first_node.
Qed.

Lemma collected_built_from_first_node_witness :
  ∃ st, scrollAndCollect_state 50 50 dup_page = Some st
      ∧ Forall (built_from_first_node (scanned dup_page (scrollAttempts st))) (collected st).
Proof.
  destruct (scrollAndCollect_state 50 50 dup_page) as [st|] eqn:Hrun;
    [|vm_compute in Hrun; discriminate].
  exists st. split; [reflexivity|].
  exact (collected_built_from_first_node 50 50 dup_page st Hrun).
Defined.

(** X3.  When the promise resolves, after [k] ticks, at least one of the
    three stop conditions held on tick [k]: the height read equals the one
    read by the tick before (0 for the first tick), or the array has reached
    the target, or [k] is the ceiling.  On no earlier tick did any of them
    hold: each earlier height differed from the one before and the array was
    still below the target.  [k] is between 1 and the ceiling, and the array
    is the one built by those [k] ticks. *)
Theorem collector_stop_cause fuel target page st :
  scrollAndCollect_state fuel target page = Some st →
  (1 ≤ scrollAttempts st ≤ maxScrollAttempts)%nat
  ∧ collected st = collected (state_after target page (scrollAttempts st))
  ∧ previousHeight st = height_before page (scrollAttempts st - 1)
  ∧ (scrollHeight (page (scrollAttempts st - 1)%nat)
       = height_before page (scrollAttempts st - 1)
     ∨ target ≤ Z.of_nat (length (collected st))
     ∨ scrollAttempts st = maxScrollAttempts)
  ∧ ∀ i, (S i < scrollAttempts st)%nat →
      scrollHeight (page i) ≠ height_before page i
      ∧ Z.of_nat (length (collected (state_after target page (S i)))) < target.
Proof. apply resolved_stop_cause. Qed.

Lemma collector_stop_cause_witness :
  ∃ st, scrollAndCollect_state 50 50 three_static = Some st
      ∧ scrollHeight (three_static 0%nat) ≠ height_before three_static 0
      ∧ scrollHeight (three_static 1%nat) = height_before three_static 1.
Proof.
  destruct (scrollAndCollect_state 50 50 three_static) as [st|] eqn:Hrun;
    [|vm_compute in Hrun; discriminate].
  exists st. split; [reflexivity|].
  destruct (collector_stop_cause 50 50 three_static st Hrun) as (_ & _ & _ & _ & Hearlier).
  assert (scrollAttempts st = 2%nat) as Hk.
  { vm_compute in Hrun. by injection Hrun as <-. }
  split; [|reflexivity]. apply Hearlier. lia.
Defined.

(** X4.  The target is tested at the end of a tick, after every node of
    the tick has been scanned: when the first tick already shows at least
    [target] different acceptable URLs (always so for a target of 0 or
    less), the promise resolves on that tick with a tweet for each of them,
    however many more than the target they are. *)
Theorem target_met_on_first_tick fuel target page :
  (1 ≤ fuel)%nat →
  target ≤ Z.of_nat (length (first_seen (omap accepted_url (cells (page 0%nat))))) →
  ∃ st, scrollAndCollect_state fuel target page = Some st
      ∧ scrollAttempts st = 1%nat
      ∧ tweetUrl <$> collected st = first_seen (omap accepted_url (cells (page 0%nat))).
Proof.
  intros Hfuel Htarget. destruct fuel as [|fuel]; [lia|].
  assert (tweetUrl <$> collected (state_after target page 1)
          = first_seen (omap accepted_url (cells (page 0%nat)))) as Hurls.
  { rewrite state_after_urls. unfold scanned. cbn. by rewrite app_nil_r. }
  unfold scrollAndCollect_state. rewrite run_interval_S. cbn zeta.
  change (scrollAttempts scroll_init) with 0%nat.
  change scroll_init with (state_after target page 0).
  rewrite interval_callback_resolved.
  change ((interval_callback target (page 0%nat) (state_after target page 0)).1)
    with (state_after target page 1).
  unfold stop_test. rewrite <- (length_fmap tweetUrl), Hurls.
  rewrite (proj2 (Z.leb_le _ _) Htarget), orb_true_r. cbn [orb].
  eexists. split; [reflexivity|]. by rewrite state_after_attempts.
Qed.

(** On [three_static] a target of 2 is met on the first tick, with three
    tweets. *)
Lemma target_met_on_first_tick_witness :
  ∃ st, scrollAndCollect_state 50 2 three_static = Some st
      ∧ scrollAttempts st = 1%nat
      ∧ tweetUrl <$> collected st = ["/a/status/1"; "/b/status/2"; "/c/status/3"].
Proof.
  destruct (target_met_on_first_tick 50 2 three_static) as (st & Hrun & Hk & Hurls).
  - lia.
  - vm_compute. discriminate.
  - exists st. split; [exact Hrun|]. split; [exact Hk|]. rewrite Hurls. vm_compute. reflexivity.
Defined.

(** X5.  A page whose height changes at each of the first 49 ticks (the
    first one not being 0) and which, in those ticks, never shows as many
    different acceptable URLs as the target, is polled exactly 50 times: the
    promise resolves on the tick that reaches the ceiling, not before. *)
Theorem polled_up_to_the_ceiling fuel target page :
  (maxScrollAttempts ≤ fuel)%nat →
  (∀ i, (S i < maxScrollAttempts)%nat → scrollHeight (page i) ≠ height_before page i) →
  (∀ i, (S i < maxScrollAttempts)%nat →
     Z.of_nat (length (first_seen (omap accepted_url (scanned page (S i))))) < target) →
  ∃ st, scrollAndCollect_state fuel target page = Some st
      ∧ scrollAttempts st = maxScrollAttempts.
Proof.
  intros Hfuel Hheights Hcount.
  destruct (run_interval_resolves fuel target page scroll_init) as (st & Hrun & _).
  { unfold maxScrollAttempts in Hfuel. lia. }
  { unfold maxScrollAttempts in *. cbn. lia. }
  exists st. split; [exact Hrun|].
  destruct (resolved_stop_cause fuel target page st Hrun)
    as ([Hk1 Hk2] & Hcol & _ & [Hh|[Ht|Hc]] & _); [| |done].
  - destruct (decide (scrollAttempts st = maxScrollAttempts)) as [|Hne]; [done|].
    exfalso. apply (Hheights (scrollAttempts st - 1)%nat); [lia|done].
  - destruct (decide (scrollAttempts st = maxScrollAttempts)) as [|Hne]; [done|].
    exfalso. specialize (Hcount (scrollAttempts st - 1)%nat ltac:(lia)).
    replace (S (scrollAttempts st - 1)) with (scrollAttempts st) in Hcount by lia.
    rewrite <- state_after_urls with (target := target), length_fmap, <- Hcol in Hcount. lia.
Qed.

Lemma polled_up_to_the_ceiling_witness :
  ∃ st, scrollAndCollect_state 50 1000 restless_page = Some st
      ∧ scrollAttempts st = maxScrollAttempts.
Proof.
  apply (polled_up_to_the_ceiling 50 1000 restless_page).
  - unfold maxScrollAttempts. lia.
  - intros i _. destruct i as [|i]; cbn [restless_page height_before scrollHeight]; lia.
  - intros i _.
    assert (scanned restless_page (S i) = []) as ->; [|cbn; lia].
    induction (S i) as [|j IH]; [done|]. by rewrite scanned_S, IH.
Defined.

(** X6.  On a page that shows the same nodes at every tick, whatever its
    height does and however many ticks run, the promise resolves with what
    one scan of those nodes collects: later ticks add nothing. *)
Theorem static_nodes_collected_once fuel target page st cs :
  scrollAndCollect_state fuel target page = Some st →
  (∀ t, cells (page t) = cs) →
  collected st = (forEach_cells cs (∅, [])).2
  ∧ processedTweetUrls st = (forEach_cells cs (∅, [])).1.
Proof.
  intros Hrun Hstatic.
  destruct (resolved_state _ _ _ _ Hrun) as (k & Hk & _ & -> & ->).
  assert (∀ j, forEach_cells (scanned page (S j)) (∅, []) = forEach_cells cs (∅, [])) as Hscan.
  { induction j as [|j IH].
    - unfold scanned. cbn. by rewrite app_nil_r, Hstatic.
    - rewrite scanned_S, forEach_cells_app, IH, Hstatic.
      apply forEach_cells_absorbed. intros c u Hc Hu.
      destruct (forEach_cells_spec cs (∅, [])) as (new & -> & _). cbn [fst].
      apply elem_of_union. left. apply elem_of_list_to_set, list_elem_of_omap. eauto. }
  pose proof (state_after_scan target page k) as Hs.
  destruct k as [|k]; [lia|]. rewrite Hscan in Hs. by rewrite <- Hs.
Qed.

Lemma static_nodes_collected_once_witness :
  ∃ st, scrollAndCollect_state 50 50 dup_page = Some st
      ∧ collected st = [tweet_a; tweet_b].
Proof.
  destruct (scrollAndCollect_state 50 50 dup_page) as [st|] eqn:Hrun;
    [|vm_compute in Hrun; discriminate].
  exists st. split; [reflexivity|].
  destruct (static_nodes_collected_once 50 50 dup_page st (cells (dup_page 0%nat)) Hrun)
    as [-> _].
  - intros t. reflexivity.
  - vm_compute. reflexivity.
Defined.

(** ** The first revision's page scrape, and the comment extractor *)

Lemma fold_left_push {A B} (f : A → B) (l : list A) (acc : list B) :
  fold_left (λ bs a, bs ++ [f a]) l acc = acc ++ (f <$> l).
Proof.
  revert acc. induction l as [|a l IH]; intros acc; cbn [fold_left].
  - by rewrite app_nil_r.
  - rewrite IH, <- app_assoc. done.
Qed.

Lemma scrapePageContent_fmap cs : tweets (scrapePageContent cs) = page_tweet <$> cs.
Proof. unfold scrapePageContent. cbn [tweets]. by rewrite fold_left_push. Qed.

Lemma page_tweet_accepted c u : accepted_url c = Some u → page_tweet c = tweet_of_cell c u.
Proof.
  unfold accepted_url, page_tweet, tweet_of_cell. destruct (cell_url c) as [v|]; [|done].
  destruct (decide (v = "")) as [|Hv]; [done|]. intros [= <-].
  cbn [opt_or_else]. unfold or_else. by rewrite decide_False by done.
Qed.

Lemma page_tweet_not_accepted c : accepted_url c = None ↔ tweetUrl (page_tweet c) = "".
Proof.
  unfold accepted_url, page_tweet. cbn [tweetUrl]. destruct (cell_url c) as [v|]; [|done].
  cbn [opt_or_else]. unfold or_else. destruct (decide (v = "")) as [->|Hv]; [done|].
  split; [done|]. intros ?. done.
Qed.

(** X8.  The first revision's [scrapePageContent] returns one tweet per
    node, in document order, dropping and merging nothing: a node without a
    usable link is kept, with the empty string as its URL, and nodes with the
    same link all stay.  For a node the later collector accepts, both
    revisions build the same tweet. *)
Theorem scrapePageContent_one_per_node (cs : list Cell) :
  length (tweets (scrapePageContent cs)) = length cs
  ∧ (∀ i c, cs !! i = Some c → tweets (scrapePageContent cs) !! i = Some (page_tweet c))
  ∧ (∀ c, accepted_url c = None ↔ tweetUrl (page_tweet c) = "")
  ∧ (∀ c u, accepted_url c = Some u → page_tweet c = tweet_of_cell c u)
  ∧ Forall (λ t, comments t = []) (tweets (scrapePageContent cs)).
Proof.
  rewrite scrapePageContent_fmap. split; [apply length_fmap|]. split; [|split; [|split]].
  - intros i c Hc. by rewrite list_lookup_fmap, Hc.
  - apply page_tweet_not_accepted.
  - apply page_tweet_accepted.
  - apply Forall_fmap, Forall_true. done.
Qed.

Lemma filter_url_union (seen : gset string) (x : string) (l : list Tweet) :
  filter (λ t, tweetUrl t ∉ {[x]} ∪ seen) l
  = filter (λ t, tweetUrl t ∉ seen) (filter (λ t, tweetUrl t ≠ x) l).
Proof.
  induction l as [|t l IH]; [done|].
  rewrite !filter_cons. destruct (decide (tweetUrl t = x)) as [Hx|Hne].
  - rewrite decide_False by set_solver.
    rewrite (decide_False (P := tweetUrl t ≠ x)) by (intros ?; done). done.
  - rewrite (decide_True (P := tweetUrl t ≠ x)) by done. rewrite filter_cons.
    destruct (decide (tweetUrl t ∉ seen)).
    + rewrite decide_True by set_solver. by rewrite IH.
    + rewrite decide_False by set_solver. done.
Qed.

Lemma filter_url_seen (seen : gset string) (x : string) (l : list Tweet) :
  x ∈ seen →
  filter (λ t, tweetUrl t ∉ seen) (filter (λ t, tweetUrl t ≠ x) l)
  = filter (λ t, tweetUrl t ∉ seen) l.
Proof.
  intros Hx. induction l as [|t l IH]; [done|].
  rewrite !filter_cons. destruct (decide (tweetUrl t = x)) as [Ht|Hne].
  - rewrite (decide_False (P := tweetUrl t ≠ x)) by (intros ?; done).
    rewrite decide_False by (rewrite Ht; set_solver). done.
  - rewrite (decide_True (P := tweetUrl t ≠ x)) by done. rewrite filter_cons.
    destruct (decide (tweetUrl t ∉ seen)); by rewrite IH.
Qed.

Lemma filter_url_not_seen_id (seen : gset string) (l : list Tweet) :
  (∀ t, t ∈ l → tweetUrl t ∉ seen) → filter (λ t, tweetUrl t ∉ seen) l = l.
Proof.
  induction l as [|t l IH]; intros Hl; [done|].
  rewrite filter_cons, decide_True by (apply Hl; left).
  rewrite IH; [done|]. intros z Hz. apply Hl. by right.
Qed.

Lemma scan_of_page_tweets cs (acc : gset string * list Tweet) :
  (forEach_cells cs acc).2
  = acc.2 ++ filter (λ t, tweetUrl t ∉ acc.1)
               (first_by_url (filter (λ t, tweetUrl t ≠ "") (page_tweet <$> cs))).
Proof.
  revert acc. induction cs as [|c cs IH]; intros [seen tws].
  - cbn. by rewrite app_nil_r.
  - rewrite forEach_cells_cons, forEach_body_accepted, fmap_cons, filter_cons.
    destruct (accepted_url c) as [u|] eqn:Hc.
    + pose proof (accepted_url_nonempty c u Hc) as Hu.
      rewrite (page_tweet_accepted c u Hc).
      rewrite (decide_True (P := tweetUrl (tweet_of_cell c u) ≠ "")) by exact Hu.
      cbn [first_by_url]. rewrite filter_cons.
      change (tweetUrl (tweet_of_cell c u)) with u. cbn [fst snd].
      destruct (decide (u ∈ seen)) as [Hin|Hin].
      * rewrite IH. cbn [fst snd]. rewrite (decide_False (P := u ∉ seen)) by (intros ?; done).
        by rewrite filter_url_seen.
      * rewrite IH. cbn [fst snd]. rewrite (decide_True (P := u ∉ seen)) by done.
        rewrite <- app_assoc. cbn [app]. by rewrite filter_url_union.
    + rewrite decide_False; [apply IH|].
      intros Hne. by apply Hne, page_tweet_not_accepted.
Qed.

(** X7.  What one scan of the later collector gathers from a page, from an
    empty start, is what the first revision's [scrapePageContent] returns for
    the same nodes once the tweets without URL are removed and, for every
    URL, only the first tweet is kept. *)
Theorem scan_is_deduplicated_scrape (cs : list Cell) :
  (forEach_cells cs (∅, [])).2
  = first_by_url (filter (λ t, tweetUrl t ≠ "") (tweets (scrapePageContent cs))).
Proof.
  rewrite scan_of_page_tweets, scrapePageContent_fmap. cbn [fst snd app].
  apply filter_url_not_seen_id. set_solver.
Qed.

Lemma extract_comments_fmap els : extract_comments els = comment_of_el <$> els.
Proof. unfold extract_comments. by rewrite fold_left_push. Qed.

(** X11.  The comment extractor returns one comment per
    [[data-testid="tweet"]] node, in document order; it drops and merges
    nothing, so equal nodes give equal, repeated comments.  A missing part of
    a node becomes the empty string, and for the two counts "0": [likes] and
    [replies] are never empty and have no space. *)
Theorem extract_comments_one_per_node (els : list ReplyEl) :
  length (extract_comments els) = length els
  ∧ (∀ i el, els !! i = Some el → extract_comments els !! i = Some (comment_of_el el))
  ∧ Forall (λ c, c_likes c ≠ "" ∧ c_replies c ≠ ""
                 ∧ has_space (c_likes c) = false ∧ has_space (c_replies c) = false)
      (extract_comments els)
  ∧ comment_of_el {| r_tweetText := None; r_userName := None; r_time := None;
                     r_like := None; r_reply := None |}
    = {| c_text := ""; c_userName := ""; c_timestamp := ""; c_likes := "0"; c_replies := "0" |}.
Proof.
  rewrite extract_comments_fmap. split; [apply length_fmap|]. split; [|split; [|done]].
  - intros i el Hel. by rewrite list_lookup_fmap, Hel.
  - apply Forall_fmap, Forall_true. intros el. cbn [comment_of_el c_likes c_replies compose].
    pose proof (count_of_nonempty (r_like el)). pose proof (count_of_nonempty (r_reply el)).
    naive_solver.
Qed.

(** ** More on [scrapeComments] *)

(** X13.  Whatever the browser does, [scrapeComments] does not throw and
    leaves the React state alone.  It logs its URL, queries the tabs, and
    then does one of four things: it stops there with an error logged; or it
    navigates and stops with an error logged; or it navigates, waits 3000 ms,
    injects the extractor and stops with an error logged; or it does these
    three steps and returns.  In the three error cases it returns the empty
    list.  The tab it navigates and injects into is the first tab its own
    query returned, and the address is "https://twitter.com" followed by its
    argument. *)
Theorem scrapeComments_traces (chrome : Chrome) (url : string) (w : World) :
  ∃ cs evs,
    scrapeComments chrome url w
      = (inr cs, {| ui := ui w;
                    trace := trace w ++ Console (LogScrapingComments url) :: TabsQuery :: evs |})
    ∧ ((∃ e, evs = [Console (ErrScrapingComments e)] ∧ cs = [])
       ∨ (∃ id e, fetch_tab chrome url w id
                  ∧ evs = [TabsUpdate id ("https://twitter.com" +:+ url);
                           Console (ErrScrapingComments e)]
                  ∧ cs = [])
       ∨ (∃ id e, fetch_tab chrome url w id
                  ∧ evs = [TabsUpdate id ("https://twitter.com" +:+ url); SetTimeout 3000;
                           ExecComments id; Console (ErrScrapingComments e)]
                  ∧ cs = [])
       ∨ (∃ id, fetch_tab chrome url w id
                ∧ evs = [TabsUpdate id ("https://twitter.com" +:+ url); SetTimeout 3000;
                         ExecComments id])).
Proof.
  rewrite scrapeComments_catch.
  destruct (scrapeComments_try chrome url w) as [r w'] eqn:Hrun. revert Hrun.
  unfold scrapeComments_try, fetch_tab. rewrite !bind_run. cbn [console emit].
  rewrite bind_run. unfold call at 1. cbn [trace ui].
  rewrite <- app_assoc. cbn [app].
  destruct (answer_query chrome _) as [m|tabs] eqn:Hq.
  { intros [= <- <-]. eexists _, _. cbn [ui trace]. rewrite <- app_assoc. cbn [app].
    split; [reflexivity|]. left. eauto. }
  cbn [fst snd]. rewrite bind_run. unfold checked_tab_id.
  destruct tabs as [|t rest]; cbn [head].
  { intros [= <- <-]. eexists _, _. cbn [ui trace]. rewrite <- app_assoc. cbn [app].
    split; [reflexivity|]. left. eauto. }
  destruct (tab_id t) as [id|] eqn:Hid.
  2:{ intros [= <- <-]. eexists _, _. cbn [ui trace]. rewrite <- app_assoc. cbn [app].
      split; [reflexivity|]. left. eauto. }
  destruct (decide (id = 0)) as [|Hne].
  { intros [= <- <-]. eexists _, _. cbn [ui trace]. rewrite <- app_assoc. cbn [app].
    split; [reflexivity|]. left. eauto. }
  cbn [ret]. rewrite bind_run. unfold call at 1. cbn [trace ui].
  rewrite <- app_assoc. cbn [app].
  destruct (answer_update chrome _) as [m|[]].
  { intros [= <- <-]. eexists _, _. cbn [ui trace]. rewrite <- app_assoc. cbn [app].
    split; [reflexivity|]. right; left. exists id. eauto 10. }
  rewrite bind_run. cbn [emit trace ui]. rewrite bind_run. unfold call at 1. cbn [trace ui].
  rewrite <- !app_assoc. cbn [app].
  destruct (answer_comments chrome _) as [m|results].
  { intros [= <- <-]. eexists _, _. cbn [ui trace]. rewrite <- app_assoc. cbn [app].
    split; [reflexivity|]. right; right; left. exists id. eauto 10. }
  destruct (head results) as [r0|].
  - intros [= <- <-]. eexists _, _. cbn [ui trace].
    split; [reflexivity|]. right; right; right. exists id. eauto 10.
  - intros [= <- <-]. eexists _, _. cbn [ui trace]. rewrite <- app_assoc. cbn [app].
    split; [reflexivity|]. right; right; left. exists id. eauto 10.
Qed.

(** X12.  When the query finds a first tab with a truthy id, the
    navigation is accepted and the injection resolves with at least one
    entry, [scrapeComments] returns the [result] of the first entry, or the
    empty list when that entry has none, after exactly these steps: log,
    query, navigation of that tab to the tweet's page, a wait of 3000 ms,
    injection into that tab. *)
Theorem scrapeComments_success (chrome : Chrome) (url : string) (w : World)
    (t : Tab) (rest : list Tab) (id : Z)
    (r : InjectionResult (list Comment)) (results : list (InjectionResult (list Comment))) :
  answer_query chrome (trace w ++ [Console (LogScrapingComments url); TabsQuery])
    = inr (t :: rest) →
  tab_id t = Some id → id ≠ 0 →
  answer_update chrome
    (trace w ++ [Console (LogScrapingComments url); TabsQuery;
                 TabsUpdate id ("https://twitter.com" +:+ url)]) = inr tt →
  answer_comments chrome
    (trace w ++ [Console (LogScrapingComments url); TabsQuery;
                 TabsUpdate id ("https://twitter.com" +:+ url); SetTimeout 3000;
                 ExecComments id]) = inr (r :: results) →
  scrapeComments chrome url w
  = (inr (default [] (result r)),
     {| ui := ui w;
        trace := trace w ++ [Console (LogScrapingComments url); TabsQuery;
                             TabsUpdate id ("https://twitter.com" +:+ url); SetTimeout 3000;
                             ExecComments id] |}).
Proof.
  intros Hq Hid Hne Hu Hc. rewrite scrapeComments_catch.
  unfold scrapeComments_try. rewrite !bind_run. cbn [console emit].
  rewrite bind_run. unfold call at 1. cbn [trace ui].
  rewrite <- app_assoc. cbn [app]. rewrite Hq.
  cbn [fst snd head]. rewrite bind_run. unfold checked_tab_id. rewrite Hid.
  rewrite decide_False by done.
  cbn [ret]. rewrite bind_run. unfold call at 1. cbn [trace ui].
  rewrite <- app_assoc. cbn [app]. rewrite Hu.
  rewrite bind_run. cbn [emit trace ui]. rewrite bind_run. unfold call at 1. cbn [trace ui].
  rewrite <- !app_assoc. cbn [app]. rewrite Hc. reflexivity.
Qed.

Lemma scrapeComments_success_witness :
  scrapeComments healthy_chrome "/a/status/1" idle
  = (inr [a_comment],
     {| ui := ui idle;
        trace := [Console (LogScrapingComments "/a/status/1"); TabsQuery;
                  TabsUpdate 7 "https://twitter.com/a/status/1"; SetTimeout 3000;
                  ExecComments 7] |}).
Proof.
  apply (scrapeComments_success healthy_chrome "/a/status/1" idle home_tab [] 7
           (mkInjectionResult (Some [a_comment])) []); try reflexivity.
  lia.
Defined.

(** ** The React state across [scrapeTweets] *)

Section StateFacts.

Variable chrome : Chrome.

Lemma same_but_progress_refl s : same_but_progress s s.
Proof. by repeat split. Qed.

Lemma same_but_progress_trans s1 s2 s3 :
  same_but_progress s1 s2 → same_but_progress s2 s3 → same_but_progress s1 s3.
Proof.
  unfold same_but_progress. intros (?&?&?&?&?&?) (?&?&?&?&?&?).
  repeat split; congruence.
Qed.

Lemma setProgress_same p w : same_but_progress (ui w) (ui (setProgress p w).2).
Proof. by repeat split. Qed.

Lemma scrapeComments_ui url w : ui (scrapeComments chrome url w).2 = ui w.
Proof. destruct (scrapeComments_total chrome url w) as (cs & evs & -> & _). done. Qed.

Lemma loop_body_ui i tws w : same_but_progress (ui w) (ui (loop_body chrome i tws w).2).
Proof.
  unfold loop_body. rewrite bind_run. cbn [setProgress modify_ui].
  destruct (tws !! i) as [t|]; [|by repeat split].
  destruct (decide (tweetUrl t = "")); [by repeat split|].
  rewrite bind_run.
  match goal with |- context [scrapeComments chrome ?u ?w1] =>
    pose proof (scrapeComments_ui u w1) as Hui;
    destruct (scrapeComments chrome u w1) as [[e|cs] w2] end;
    cbn [snd ret] in *; rewrite Hui; by repeat split.
Qed.

Lemma for_indices_ui idxs tws w :
  same_but_progress (ui w) (ui (for_indices chrome idxs tws w).2).
Proof.
  revert tws w. induction idxs as [|i idxs IH]; intros tws w;
    [apply same_but_progress_refl|].
  cbn [for_indices]. rewrite bind_run.
  pose proof (loop_body_ui i tws w) as Hbody.
  destruct (loop_body chrome i tws w) as [[e|tws1] w1]; [done|].
  eapply same_but_progress_trans; [exact Hbody|apply IH].
Qed.

Lemma find_tweets_ui count w0 :
  same_but_progress (ui w0) (ui (find_tweets chrome count w0).2).
Proof.
  rewrite find_tweets_run. unfold world_at_loop.
  destruct (answer_query chrome _) as [m|tabs]; [by repeat split|].
  destruct (head tabs) as [t|]; [|by repeat split]. cbn zeta.
  destruct (tab_id t) as [id|]; [|by repeat split].
  destruct (decide (id = 0)); [by repeat split|].
  destruct (answer_setCount chrome _) as [m|[]]; [by repeat split|].
  destruct (answer_collect chrome _) as [m|results]; [by repeat split|].
  destruct (head results ≫= result) as [[|tw tws0]|]; by repeat split.
Qed.

Lemma restore_ui id url w : ui (restore chrome id url w).2 = ui w.
Proof. destruct (restore_run chrome id url w) as (r & -> & _). done. Qed.

(** The [try] block: a throw leaves everything but [progress] as it was;
    a normal end stores a non-empty array and the final progress line. *)
Lemma scrapeTweets_try_ui count w :
  match (scrapeTweets_try chrome count w).1 with
  | inl _ => same_but_progress (ui w) (ui (scrapeTweets_try chrome count w).2)
  | inr _ =>
      ∃ tws', tws' ≠ []
        ∧ ui (scrapeTweets_try chrome count w).2
          = {| scrapedData := Some {| tweets := tws' |};
               isLoading := isLoading (ui w);
               error := error (ui w);
               progress := "Scraping completed successfully!";
               tweetCount := tweetCount (ui w);
               copyStatus := copyStatus (ui w);
               searchTerm := searchTerm (ui w) |}
  end.
Proof.
  rewrite scrapeTweets_try_run.
  pose proof (find_tweets_ui count w) as Hfind.
  destruct (find_tweets chrome count w) as [[e|[[id url] tws]] w1] eqn:Hf; [done|].
  destruct (find_tweets_ok_inv chrome count w id url tws w1 Hf) as (_ & _ & _ & _ & _ & Hnil & _).
  cbn [snd] in Hfind.
  pose proof (for_indices_ui (seq 0 (length tws)) tws w1) as Hloop.
  destruct (comments_loop_spec chrome tws w1) as (tws' & w2 & evs & Hrun & _ & Hsame & _).
  unfold comments_loop in Hrun. fold (comments_loop chrome tws w1).
  unfold comments_loop. rewrite Hrun in *. cbn [snd] in Hloop.
  pose proof (restore_ui id url w2) as Hres.
  destruct (restore chrome id url w2) as [[e|[]] w3]; cbn [snd fst] in *.
  - rewrite Hres. eapply same_but_progress_trans; [exact Hfind|exact Hloop].
  - exists tws'. split.
    { intros ->. apply Forall2_length in Hsame. by destruct tws. }
    unfold finish, mbind, M_bind, bind.
    cbn [setScrapedData console emit setProgress modify_ui ui snd]. rewrite Hres.
    destruct Hfind as (_&H1&H2&H3&H4&H5), Hloop as (_&G1&G2&G3&G4&G5).
    f_equal; cbn [isLoading error tweetCount copyStatus searchTerm]; congruence.
Qed.

End StateFacts.


(** X15.  When the [try] block of [scrapeTweets] throws, the run ends with
    the error text "Error scraping tweets: " followed by the error's message,
    the error is logged last, and the scraped data is what it was before the
    run: the result of an earlier run stays in the state. *)
Theorem scrapeTweets_failure_keeps_data (chrome : Chrome) (w : World) (e : Exn) :
  (scrapeTweets_try chrome (tweetCount (ui w)) (started w)).1 = inl e →
  ∃ w',
    scrapeTweets chrome w = (inr tt, w')
    ∧ error (ui w') = Some ("Error scraping tweets: " +:+ message e)
    ∧ scrapedData (ui w') = scrapedData (ui w)
    ∧ isLoading (ui w') = false
    ∧ last (trace w') = Some (Console (ErrScraping e)).
Proof.
  intros Hthrow.
  unfold scrapeTweets, try_catch_finally, try_catch, mbind, M_bind, bind.
  cbn [setIsLoading setError setProgress modify_ui ui trace].
  change (scrapeTweets_try chrome (tweetCount (ui w)) _)
    with (scrapeTweets_try chrome (tweetCount (ui w)) (started w)).
  pose proof (scrapeTweets_try_ui chrome (tweetCount (ui w)) (started w)) as Hui.
  destruct (scrapeTweets_try chrome (tweetCount (ui w)) (started w)) as [[e'|[]] w1];
    cbn [fst snd] in *; [|done].
  injection Hthrow as ->.
  eexists. split; [reflexivity|].
  cbn [ui trace error scrapedData isLoading console emit].
  destruct Hui as (Hdata&_). split; [done|]. split; [done|]. split; [done|].
  apply last_snoc.
Qed.

(** With [blocked_chrome], started where an earlier run left a tweet, the
    run fails and the tweet is still there. *)
Lemma scrapeTweets_failure_keeps_data_witness :
  ∃ w',
    scrapeTweets blocked_chrome after_a_run = (inr tt, w')
    ∧ error (ui w') = Some "Error scraping tweets: Cannot access contents of the page"
    ∧ scrapedData (ui w') = Some {| tweets := [tweet_a] |}.
Proof.
  destruct (scrapeTweets_failure_keeps_data blocked_chrome after_a_run
              (Rejected "Cannot access contents of the page"))
    as (w' & Hrun & Herr & Hdata & _).
  - vm_compute. reflexivity.
  - exists w'. split; [exact Hrun|]. split; [exact Herr|exact Hdata].
Defined.

(** X16.  When the [try] block of [scrapeTweets] ends normally, the run
    ends with no error text, the progress line "Scraping completed
    successfully!", [isLoading] false and a non-empty array of tweets as
    scraped data: an empty result is never stored. *)
Theorem scrapeTweets_success_state (chrome : Chrome) (w : World) :
  (scrapeTweets_try chrome (tweetCount (ui w)) (started w)).1 = inr tt →
  ∃ w' tws',
    scrapeTweets chrome w = (inr tt, w')
    ∧ tws' ≠ []
    ∧ ui w' = {| scrapedData := Some {| tweets := tws' |};
                 isLoading := false;
                 error := None;
                 progress := "Scraping completed successfully!";
                 tweetCount := tweetCount (ui w);
                 copyStatus := copyStatus (ui w);
                 searchTerm := searchTerm (ui w) |}
    ∧ last (trace w') = Some (Console (LogFinal tws')).
Proof.
  intros Hok.
  unfold scrapeTweets, try_catch_finally, try_catch, mbind, M_bind, bind.
  cbn [setIsLoading setError setProgress modify_ui ui trace].
  change (scrapeTweets_try chrome (tweetCount (ui w)) _)
    with (scrapeTweets_try chrome (tweetCount (ui w)) (started w)).
  pose proof (scrapeTweets_try_ui chrome (tweetCount (ui w)) (started w)) as Hui.
  pose proof (scrapeTweets_try_run chrome (tweetCount (ui w)) (started w)) as Hrun.
  destruct (scrapeTweets_try chrome (tweetCount (ui w)) (started w)) as [[e'|[]] w1];
    cbn [fst snd] in *; [done|].
  destruct Hui as (tws' & Hnil & Hui).
  exists {| ui := {| scrapedData := scrapedData (ui w1); isLoading := false;
                     error := error (ui w1); progress := progress (ui w1);
                     tweetCount := tweetCount (ui w1); copyStatus := copyStatus (ui w1);
                     searchTerm := searchTerm (ui w1) |};
            trace := trace w1 |}, tws'.
  split; [reflexivity|]. split; [done|]. split; [by rewrite Hui|].
  cbn [trace].
  destruct (find_tweets chrome (tweetCount (ui w)) (started w)) as [[e|[[id url] tws]] w2];
    [done|].
  destruct (comments_loop chrome tws w2) as [[e|tws''] w3]; [done|].
  destruct (restore chrome id url w3) as [[e|[]] w4]; [done|].
  destruct (finish_run tws'' w4) as (w5 & Hfin & Hdata & Htr).
  rewrite Hfin in Hrun. injection Hrun as ->.
  rewrite Hui in Hdata. cbn [scrapedData] in Hdata. injection Hdata as ->.
  rewrite Htr. apply last_snoc.
Qed.

Lemma scrapeTweets_success_state_witness :
  ∃ w' tws',
    scrapeTweets healthy_chrome idle = (inr tt, w')
    ∧ tws' ≠ []
    ∧ scrapedData (ui w') = Some {| tweets := tws' |}
    ∧ error (ui w') = None
    ∧ progress (ui w') = "Scraping completed successfully!".
Proof.
  destruct (scrapeTweets_success_state healthy_chrome idle) as (w' & tws' & Hrun & Hnil & Hui & _).
  - vm_compute. reflexivity.
  - exists w', tws'. split; [exact Hrun|]. split; [exact Hnil|]. by rewrite Hui.
Defined.

(** ** The collector and the driver together *)

(** X17.  When the collector's injection resolves with what the
    collector's promise resolved with, for the injected target, and that is
    not empty, the loop fetches the comments of every tweet, once each and in
    the collector's order, and the array it ends with has the collector's
    URLs: first-seen order, no URL twice, none empty.  That array is the
    scraped data once the restoration has not thrown. *)
Theorem harvest_of_collected (chrome : Chrome) (count : Z) (w0 : World) (t : Tab) (id : Z)
    (fuel : nat) (page : Page) (st : ScrollState) :
  collect_answered chrome count w0 t id [mkInjectionResult (Some (collected st))] →
  scrollAndCollect_state fuel count page = Some st →
  collected st ≠ [] →
  ∃ tws' w2 evs,
    comments_loop chrome (collected st)
      (world_at_loop w0 t id count [mkInjectionResult (Some (collected st))]) = (inr tws', w2)
    ∧ trace w2
      = trace (world_at_loop w0 t id count [mkInjectionResult (Some (collected st))]) ++ evs
    ∧ fetched_urls evs = tweetUrl <$> tws'
    ∧ tweetUrl <$> tws'
      = first_seen (omap accepted_url (scanned page (scrollAttempts st)))
    ∧ NoDup (tweetUrl <$> tws')
    ∧ Forall (λ t', tweetUrl t' ≠ "") tws'
    ∧ ∀ w3, restore chrome id (tab_url t) w2 = (inr tt, w3) →
        (scrapeTweets_try chrome count w0).1 = inr tt
        ∧ scrapedData (ui (scrapeTweets_try chrome count w0).2) = Some {| tweets := tws' |}.
Proof.
  intros Hans Hrun Hnil.
  destruct (comments_loop_spec chrome (collected st)
              (world_at_loop w0 t id count [mkInjectionResult (Some (collected st))]))
    as (tws' & w2 & evs & Hloop & Htr & Hsame & Hf & _).
  assert (tweetUrl <$> tws' = tweetUrl <$> collected st) as Hurls.
  { clear -Hsame. induction Hsame as [|x x' l l' Hx _ IH]; [done|].
    rewrite !fmap_cons, IH. f_equal. by apply same_but_comments_url. }
  destruct (resolved_state _ _ _ _ Hrun) as (k & _ & Hat & _ & Hcol).
  assert (Forall (λ u, u ≠ "") (tweetUrl <$> collected st)) as Hne.
  { rewrite Hcol. apply Forall_fmap.
    eapply Forall_impl; [apply state_after_first_node|].
    intros x (cs1 & c & cs2 & _ & Hacc & _). by eapply accepted_url_nonempty. }
  exists tws', w2, evs. split; [done|]. split; [done|]. split.
  { rewrite Hf, Hurls. clear -Hne. induction Hne as [|u l Hu _ IH]; [done|].
    rewrite filter_cons, decide_True by done. by rewrite IH. }
  split; [by rewrite Hurls, Hcol, Hat, state_after_urls|].
  split; [rewrite Hurls, Hcol, state_after_urls; apply first_seen_NoDup|].
  split.
  { rewrite <- Hurls in Hne. apply Forall_forall. intros x Hx.
    rewrite Forall_forall in Hne. by apply Hne, list_elem_of_fmap_2. }
  intros w3 Hrestore.
  pose proof (find_tweets_ok chrome count w0 t id _ (collected st) Hans eq_refl Hnil) as Hfind.
  rewrite scrapeTweets_try_run, Hfind, Hloop, Hrestore.
  destruct (finish_run tws' w3) as (w' & -> & Hdata & _). done.
Qed.

(** With [dup_page_chrome] the collector runs on [dup_page]: two tweets,
    two fetches, one result. *)
Lemma harvest_of_collected_witness :
  ∃ tws',
    scrapedData (ui (scrapeTweets_try dup_page_chrome 50 idle).2) = Some {| tweets := tws' |}
    ∧ tweetUrl <$> tws' = ["/a/status/1"; "/b/status/2"].
Proof.
  destruct (scrollAndCollect_state 50 50 dup_page) as [st|] eqn:Hrun;
    [|vm_compute in Hrun; discriminate].
  assert (collected st = [tweet_a; tweet_b]) as Hcol.
  { vm_compute in Hrun. by injection Hrun as <-. }
  destruct (harvest_of_collected dup_page_chrome 50 idle home_tab 7 50 dup_page st)
    as (tws' & w2 & evs & _ & _ & _ & Hurls & _ & _ & Hres).
  - split; [by exists []|]. split; [done|]. split; [lia|]. split; [done|].
    cbn [answer_collect dup_page_chrome]. unfold scrollAndCollect. by rewrite Hrun.
  - exact Hrun.
  - by rewrite Hcol.
  - destruct (Hres {| ui := ui w2;
                      trace := trace w2 ++ [TabsUpdate 7 "https://twitter.com/home"] |})
      as [_ Hdata]; [reflexivity|].
    exists tws'. split; [exact Hdata|]. rewrite Hurls.
    assert (scrollAttempts st = 2%nat) as ->.
    { vm_compute in Hrun. by injection Hrun as <-. }
    vm_compute. reflexivity.
Defined.

(** ** More on the export *)

Lemma comment_json_inj c c' : comment_json c = comment_json c' → c = c'.
Proof. destruct c, c'. unfold comment_json. cbn. intros [= -> -> -> -> ->]. done. Qed.

Lemma fmap_comment_json_inj (cs cs' : list Comment) :
  comment_json <$> cs = comment_json <$> cs' → cs = cs'.
Proof.
  revert cs'. induction cs as [|c cs IH]; intros [|c' cs']; try done.
  rewrite !fmap_cons. intros Heq.
  assert (comment_json c = comment_json c') as Hc by congruence.
  assert (comment_json <$> cs = comment_json <$> cs') as Hcs by congruence.
  f_equal; [by apply comment_json_inj|by apply IH].
Qed.

Lemma tweet_json_inj t t' : tweet_json t = tweet_json t' → t = t'.
Proof.
  destruct t, t'. unfold tweet_json. cbn.
  intros [= -> -> -> -> -> _ -> Hcs]. apply fmap_comment_json_inj in Hcs. by subst.
Qed.

Lemma fmap_tweet_json_inj (tws tws' : list Tweet) :
  tweet_json <$> tws = tweet_json <$> tws' → tws = tws'.
Proof.
  revert tws'. induction tws as [|t tws IH]; intros [|t' tws']; try done.
  rewrite !fmap_cons. intros Heq.
  assert (tweet_json t = tweet_json t') as Ht by congruence.
  assert (tweet_json <$> tws = tweet_json <$> tws') as Htws by congruence.
  f_equal; [by apply tweet_json_inj|by apply IH].
Qed.

(** X18.  The exported record loses nothing: two exports are equal only
    if they were made at the same time, for the same search term, from the
    same scraped data, every tweet and every comment field for field. *)
Theorem export_loses_nothing (now term now' term' : string) (d d' : ScrapedData) :
  formattedData now term d = formattedData now' term' d' →
  now = now' ∧ term = term' ∧ d = d'.
Proof.
  unfold formattedData. intros [= _ -> -> Htws]. apply fmap_tweet_json_inj in Htws.
  destruct d, d'. cbn in Htws. by subst.
Qed.

Lemma export_loses_nothing_witness :
  "t1" = "t1" ∧ "rocq" = "rocq"
  ∧ {| tweets := [set_comments tweet_a [a_comment]] |}
    = {| tweets := [set_comments tweet_a [a_comment]] |}.
Proof.
  apply (export_loses_nothing "t1" "rocq" "t1" "rocq"). reflexivity.
Defined.

(** ** Which comments go to which tweet *)

(** X19.  The loop gives every tweet the comments of its own fetch.  For
    the tweet [tk] at index [k]: if its URL is empty it comes out of the loop
    exactly as it went in, no fetch being made for it; otherwise it comes out
    with, as its comments, the list that [scrapeComments] returned when
    called with its URL in the world reached after the iterations before [k],
    whatever comments it had before and whatever later fetches return. *)
Theorem comments_go_to_their_tweet (chrome : Chrome) (tws : list Tweet) (w : World)
    (k : nat) (tk : Tweet) :
  tws !! k = Some tk →
  ∃ tws' w2 cs w_k',
    comments_loop chrome tws w = (inr tws', w2)
    ∧ scrapeComments chrome (tweetUrl tk) (fetch_world chrome tws w k) = (inr cs, w_k')
    ∧ tws' !! k = Some (if decide (tweetUrl tk = "") then tk else set_comments tk cs).
Proof.
  intros Hk.
  destruct (comments_loop_split chrome tws w k tk Hk)
    as (before & w_k & cs & w_k' & tws' & w2 & Hpre & _ & Hbody & _ & _ & Hloop & Hitem & _).
  destruct (scrapeComments_total chrome (tweetUrl tk) (fetch_world chrome tws w k))
    as (cs0 & evs & Hfetch & _).
  exists tws', w2, cs0. eexists. split; [exact Hloop|]. split; [exact Hfetch|].
  rewrite Hitem. destruct (decide (tweetUrl tk = "")) as [|Hurl]; [done|].
  do 2 f_equal.
  assert (length before = length tws) as Hlen.
  { destruct (for_indices_seq chrome k 0 tws w) as (b & wb & ? & Hb & _ & Hsame & _);
      [apply lookup_lt_Some in Hk; lia|].
    unfold loop_prefix in Hpre. rewrite Hpre in Hb. injection Hb as <- <-.
    symmetry. by eapply Forall2_length. }
  assert (before !! k = Some tk) as Hbk.
  { destruct (for_indices_seq chrome k 0 tws w) as (b & wb & ? & Hb & _ & _ & _ & Hdrop & _);
      [apply lookup_lt_Some in Hk; lia|].
    unfold loop_prefix in Hpre. rewrite Hpre in Hb. injection Hb as <- <-.
    cbn [Nat.add] in Hdrop.
    rewrite <- (Nat.add_0_r k), <- lookup_drop, Hdrop, lookup_drop, Nat.add_0_r. done. }
  revert Hbody. unfold loop_body. rewrite bind_run. cbn [setProgress modify_ui].
  rewrite Hbk, decide_False by done. rewrite bind_run.
  revert Hfetch. unfold fetch_world. rewrite Hpre. cbn [snd setProgress modify_ui].
  rewrite Hlen. intros ->. cbn [ret]. intros [= Heq _].
  apply (f_equal (λ l, comments <$> l !! k)) in Heq.
  rewrite !list_lookup_insert_eq in Heq by (apply lookup_lt_Some in Hbk; done).
  cbn in Heq. by injection Heq as ->.
Qed.

(** With [flaky_chrome] the first tweet gets the empty list of its failed
    fetch and the second the comment of its own. *)
Lemma comments_go_to_their_tweet_witness :
  ∃ tws' w2,
    comments_loop flaky_chrome [tweet_a; tweet_b] idle = (inr tws', w2)
    ∧ tws' !! 1%nat = Some (set_comments tweet_b [a_comment]).
Proof.
  destruct (comments_go_to_their_tweet flaky_chrome [tweet_a; tweet_b] idle 1 tweet_b)
    as (tws' & w2 & cs & w_k' & Hloop & Hfetch & Hitem); [reflexivity|].
  exists tws', w2. split; [exact Hloop|]. rewrite Hitem.
  vm_compute in Hfetch. injection Hfetch as <- _. reflexivity.
Defined.

(** ** Further instances *)

(** On the nodes of [dup_page] the first revision returns four tweets, the
    second of them for "/b/status/2". *)
Lemma scrapePageContent_one_per_node_witness :
  length (tweets (scrapePageContent (cells (dup_page 0%nat)))) = 4%nat
  ∧ tweets (scrapePageContent (cells (dup_page 0%nat))) !! 1%nat = Some tweet_b.
Proof.
  destruct (scrapePageContent_one_per_node (cells (dup_page 0%nat)))
    as (Hlen & Hith & _ & Hsame & _).
  split; [by rewrite Hlen|].
  rewrite (Hith 1%nat (bare_cell "/b/status/2") eq_refl).
  by rewrite (Hsame (bare_cell "/b/status/2") "/b/status/2" eq_refl).
Defined.

(** Two equal nodes without any part give two equal comments of defaults. *)
Lemma extract_comments_one_per_node_witness :
  extract_comments
    [ {| r_tweetText := None; r_userName := None; r_time := None;
         r_like := None; r_reply := None |};
      {| r_tweetText := None; r_userName := None; r_time := None;
         r_like := None; r_reply := None |} ] !! 1%nat
  = Some {| c_text := ""; c_userName := ""; c_timestamp := "";
            c_likes := "0"; c_replies := "0" |}.
Proof.
  destruct (extract_comments_one_per_node
              [ {| r_tweetText := None; r_userName := None; r_time := None;
                   r_like := None; r_reply := None |};
                {| r_tweetText := None; r_userName := None; r_time := None;
                   r_like := None; r_reply := None |} ])
    as (_ & Hith & _ & Hdefault).
  rewrite (Hith 1%nat _ eq_refl). by rewrite Hdefault.
Defined.

(** ** The timer when [document.body] may be missing *)

(** As long as the firings below the ceiling find a body, the timer runs as
    on the page of [Snapshot]s. *)
Lemma run_interval_dom_with_body fuel target page st :
  (∀ t, (t < maxScrollAttempts)%nat → is_Some (dom_body (page t))) →
  (scrollAttempts st < maxScrollAttempts)%nat →
  run_interval_dom fuel target page (scrollAttempts st) st
  = run_interval fuel target (with_body page) st.
Proof.
  intros Hbody. revert st. induction fuel as [|fuel IH]; intros st Hlt; [done|].
  cbn [run_interval_dom]. rewrite run_interval_S. cbn zeta.
  unfold dom_callback. destruct (Hbody _ Hlt) as [h Hh]. rewrite Hh.
  assert (with_body page (scrollAttempts st)
          = {| cells := dom_cells (page (scrollAttempts st)); scrollHeight := h |}) as ->.
  { unfold with_body. by rewrite Hh. }
  pose proof (interval_callback_attempts target
    {| cells := dom_cells (page (scrollAttempts st)); scrollHeight := h |} st) as Hat.
  pose proof (interval_callback_resolved target
    {| cells := dom_cells (page (scrollAttempts st)); scrollHeight := h |} st) as Hres.
  destruct (interval_callback target _ st) as [st1 b]. cbn [fst snd] in *.
  destruct b; [done|]. rewrite <- Hat. apply IH. rewrite Hat.
  destruct (decide (maxScrollAttempts ≤ S (scrollAttempts st))%nat) as [Hc|Hc]; [|lia].
  rewrite stop_test_ceiling in Hres by done. done.
Qed.

(** Without a body no firing resolves the promise. *)
Lemma run_interval_dom_no_body fuel target page fired st :
  (∀ t, dom_body (page t) = None) →
  run_interval_dom fuel target page fired st = None.
Proof.
  intros Hnone. revert fired st. induction fuel as [|fuel IH]; intros fired st; [done|].
  cbn [run_interval_dom]. unfold dom_callback. rewrite Hnone.
  destruct (forEach_cells _ _) as [seen tws]. apply IH.
Qed.

Lemma omap_scanned_nil page k :
  (∀ t, (t < k)%nat → omap accepted_url (cells (page t)) = []) →
  omap accepted_url (scanned page k) = [].
Proof.
  induction k as [|k IH]; intros Hnone; [done|].
  rewrite scanned_S, omap_app, IH, Hnone by (intros; try apply Hnone; lia). done.
Qed.

(** C2, as the code has it.  For every document in which the firings
    below the ceiling find a [document.body], and for every target, positive
    or not, the promise resolves, with a timer tick available for every
    attempt up to the ceiling: there is a final state, reached after at least
    one and at most [maxScrollAttempts] = 50 ticks, whatever the heights and
    the tweet count do, and it is the final state of the run on the page of
    [Snapshot]s.  If none of the nodes scanned had an acceptable URL the
    array the promise resolves with is empty.  There is no rejecting path. *)
Theorem collect_resolves_with_a_body fuel target (page : DomPage) :
  (maxScrollAttempts ≤ fuel)%nat →
  (∀ t, (t < maxScrollAttempts)%nat → is_Some (dom_body (page t))) →
  ∃ st, scrollAndCollect_dom fuel target page = Some st
      ∧ scrollAndCollect_state fuel target (with_body page) = Some st
      ∧ (1 ≤ scrollAttempts st ≤ maxScrollAttempts)%nat
      ∧ ((∀ t, (t < scrollAttempts st)%nat → omap accepted_url (dom_cells (page t)) = [])
         → collected st = []).
Proof.
  intros Hfuel Hbody.
  destruct (run_interval_resolves fuel target (with_body page) scroll_init)
    as (st & Hrun & Hlt & Hle).
  { unfold maxScrollAttempts in Hfuel. lia. }
  { unfold maxScrollAttempts in *. cbn. lia. }
  exists st. split; [|split; [exact Hrun|split]].
  - unfold scrollAndCollect_dom.
    rewrite <- Hrun. apply (run_interval_dom_with_body fuel target page scroll_init Hbody).
    unfold maxScrollAttempts. cbn. lia.
  - unfold maxScrollAttempts in *. cbn in Hlt, Hle. lia.
  - intros Hnone. destruct (resolved_state _ _ _ _ Hrun) as (k & _ & Hat & _ & Hcol).
    apply (fmap_nil_inv tweetUrl). rewrite Hcol, state_after_urls, <- Hat.
    by rewrite (omap_scanned_nil (with_body page) (scrollAttempts st) Hnone).
Qed.

(** On [restless_dom] every firing finds a body, taller each time, and no
    tweet ever shows: with a target of 1000 the run ends at the ceiling,
    empty. *)
Lemma collect_resolves_with_a_body_witness :
  ∃ st, scrollAndCollect_dom 50 1000 restless_dom = Some st
      ∧ scrollAttempts st = 50%nat
      ∧ collected st = [].
Proof.
  destruct (collect_resolves_with_a_body 50 1000 restless_dom) as (st & Hrun & Hrun' & _ & Hnone).
  - unfold maxScrollAttempts. lia.
  - intros t _. by eexists.
  - exists st. split; [exact Hrun|]. split; [|apply Hnone; intros t _; reflexivity].
    vm_compute in Hrun'. by injection Hrun' as <-.
Defined.

(** C2 as the specification words it does not hold: in a document without
    a body every firing throws at [document.body.scrollHeight], before the
    attempt counter and the stop test; the interval is never cleared and the
    promise stays pending, after 50 firings as after 1000. *)
Lemma always_resolves_counterexample :
  scrollAndCollect_dom 50 50 bodyless_page = None
  ∧ scrollAndCollect_dom 1000 50 bodyless_page = None
  ∧ ¬ always_resolves_as_stated.
Proof.
  split; [by apply run_interval_dom_no_body|]. split; [by apply run_interval_dom_no_body|].
  intros Hclaim. destruct (Hclaim bodyless_page 50 ltac:(lia)) as [st Hrun].
  unfold scrollAndCollect_dom in Hrun.
  by rewrite run_interval_dom_no_body in Hrun.
Qed.
